(** * sysfs.gpio: the pin registry and its poller, embedded in Rocq

    A shallow embedding of [sysfs/gpio.py] (classes [Pin] and [Controller]).
    Python objects become records, the dictionary [_allocated_pins] a
    [gmap], and every method a function in a state-and-exception monad over
    the controller and the kernel-side environment (sysfs files and the
    epoll set).  An exception leaves the effects performed before it in
    place, as in Python.

    What the embedding leaves out: the [Logger.debug] lines, which only
    format their arguments; the thread running [_poll_queue_loop], whose
    batches reach [_poll_queue_event] through the reactor, one call at a
    time; and callbacks that call back into the controller (a callback is
    a function of its two arguments that returns or raises). *)

From stdpp Require Import base gmap sets list strings pretty.

Local Open Scope string_scope.
Local Open Scope Z_scope.

(** ** Exceptions *)

(** The exception objects the module raises or lets through:
    [raise Exception(msg)], the [KeyError] of a dictionary subscript, and
    the [IOError] of a failed system call (carrying its errno). *)
Inductive PyExc : Type :=
  | Exception (msg : string)
  | KeyError (key : Z)
  | IOError (errno : Z).

Inductive result (A : Type) : Type :=
  | Ok (a : A)
  | Raise (e : PyExc).
Arguments Ok {A} a.
Arguments Raise {A} e.

Definition ENOENT : Z := 2.
Definition EEXIST : Z := 17.

(** ** Sysfs constants *)

Definition SYSFS_BASE_PATH : string := "/sys/class/gpio".
Definition SYSFS_EXPORT_PATH : string := SYSFS_BASE_PATH +:+ "/export".
Definition SYSFS_UNEXPORT_PATH : string := SYSFS_BASE_PATH +:+ "/unexport".

(** ['/sys/class/gpio/gpio%d' % number] *)
Definition SYSFS_GPIO_PATH (number : Z) : string :=
  SYSFS_BASE_PATH +:+ "/gpio" +:+ pretty number.
Definition SYSFS_GPIO_DIRECTION_PATH (number : Z) : string :=
  SYSFS_GPIO_PATH number +:+ "/direction".
Definition SYSFS_GPIO_EDGE_PATH (number : Z) : string :=
  SYSFS_GPIO_PATH number +:+ "/edge".
Definition SYSFS_GPIO_VALUE_PATH (number : Z) : string :=
  SYSFS_GPIO_PATH number +:+ "/value".
Definition SYSFS_GPIO_ACTIVE_LOW_PATH (number : Z) : string :=
  SYSFS_GPIO_PATH number +:+ "/active_low".

Definition SYSFS_GPIO_VALUE_LOW : string := "0".
Definition SYSFS_GPIO_VALUE_HIGH : string := "1".

(** ** Public interface constants *)

Definition INPUT : string := "in".
Definition OUTPUT : string := "out".

Definition RISING : string := "rising".
Definition FALLING : string := "falling".
Definition BOTH : string := "both".

Definition ACTIVE_LOW_ON : Z := 1.
Definition ACTIVE_LOW_OFF : Z := 0.

Definition DIRECTIONS : list string := [INPUT; OUTPUT].
Definition EDGES : list string := [RISING; FALLING; BOTH].
Definition ACTIVE_LOW_MODES : list Z := [ACTIVE_LOW_ON; ACTIVE_LOW_OFF].

(** [select.EPOLLPRI] and [select.EPOLLET] *)
Definition EPOLLPRI : Z := 2.
Definition EPOLLET : Z := Z.shiftl 1 31.

(** ** The environment: sysfs and epoll *)

(** The files the module touches.  The two control endpoints are global,
    the others belong to one exported pin. *)
Inductive Endpoint : Type :=
  | Export
  | Unexport
  | Direction (number : Z)
  | Edge (number : Z)
  | ActiveLow (number : Z)
  | Value (number : Z).

Definition path_of (ep : Endpoint) : string :=
  match ep with
  | Export => SYSFS_EXPORT_PATH
  | Unexport => SYSFS_UNEXPORT_PATH
  | Direction n => SYSFS_GPIO_DIRECTION_PATH n
  | Edge n => SYSFS_GPIO_EDGE_PATH n
  | ActiveLow n => SYSFS_GPIO_ACTIVE_LOW_PATH n
  | Value n => SYSFS_GPIO_VALUE_PATH n
  end.

(** A system call the environment may refuse. *)
Inductive IoOp : Type :=
  | OpOpen (ep : Endpoint)
  | OpWrite (ep : Endpoint)
  | OpRead (ep : Endpoint)
  | OpRegister (fd : Z)
  | OpUnregister (fd : Z).

(** What the module did to its environment, oldest first.  [EvCallback] is
    one invocation of a user callback with its two arguments. *)
Inductive Event : Type :=
  | EvOpen (ep : Endpoint) (fd : Z)
  | EvWrite (ep : Endpoint) (data : string)
  | EvRead (ep : Endpoint)
  | EvRegister (fd : Z) (mask : Z)
  | EvUnregister (fd : Z)
  | EvCallback (number : Z) (state : Z).

Global Instance Endpoint_eq_dec : EqDecision Endpoint.
Proof. solve_decision. Defined.
Global Instance Event_eq_dec : EqDecision Event.
Proof. solve_decision. Defined.

(** The kernel side.  [exported] are the pins whose [gpioN] directory
    exists; [registered] the descriptors armed in the epoll object
    [_poll_queue]; [next_fd] the next descriptor [open] hands out
    (descriptors are not reused: closing is left to the garbage collector
    and is not modelled); [level n] the integer the token in [gpioN/value]
    parses to; [faults op] the errno with which the environment refuses
    [op], if it does. *)
Record World : Type := mkWorld {
  exported : gset Z;
  registered : gset Z;
  next_fd : Z;
  level : Z → Z;
  trace : list Event;
  faults : IoOp → option Z
}.

(** A user callback: called with [(number, state)], it returns or raises. *)
Definition Callback : Type := Z → Z → option PyExc.

(** An open file object. *)
Record File : Type := mkFile {
  f_fileno : Z;
  f_name : Endpoint
}.

(** ** class Pin: the attributes *)

Record Pin : Type := mkPin {
  _number : Z;
  _direction : string;
  _callback : option Callback;
  _active_low : Z;
  _fd : File
}.

(** ** class Controller: the attributes ([_poll_queue] is [registered]) *)

Record Controller : Type := mkController {
  _allocated_pins : gmap Z Pin;
  _available_pins : list Z;
  _running : bool
}.

Record Machine : Type := mkMachine {
  ctl : Controller;
  env : World
}.

(** ** The monad *)

Definition M (A : Type) : Type := Machine → result A * Machine.

Definition ret {A} (a : A) : M A := λ m, (Ok a, m).
Definition raise {A} (e : PyExc) : M A := λ m, (Raise e, m).
Definition bind {A B} (c : M A) (k : A → M B) : M B :=
  λ m, match c m with
       | (Ok a, m') => k a m'
       | (Raise e, m') => (Raise e, m')
       end.

Notation "x <- c ;; k" := (bind c (λ x, k))
  (at level 100, c at next level, right associativity).
Notation "c ;;; k" := (bind c (λ _, k))
  (at level 100, right associativity).

Definition get_ctl : M Controller := λ m, (Ok (ctl m), m).
Definition put_ctl (c : Controller) : M unit :=
  λ m, (Ok tt, mkMachine c (env m)).

(** ** Environment primitives *)

Definition log (ev : Event) (w : World) : World :=
  mkWorld (exported w) (registered w) (next_fd w) (level w)
          (trace w ++ [ev]) (faults w).

Definition set_exported (s : gset Z) (w : World) : World :=
  mkWorld s (registered w) (next_fd w) (level w) (trace w) (faults w).
Definition set_registered (s : gset Z) (w : World) : World :=
  mkWorld (exported w) s (next_fd w) (level w) (trace w) (faults w).
Definition set_next_fd (n : Z) (w : World) : World :=
  mkWorld (exported w) (registered w) n (level w) (trace w) (faults w).
Definition set_level (f : Z → Z) (w : World) : World :=
  mkWorld (exported w) (registered w) (next_fd w) f (trace w) (faults w).

(** Run a system call unless the environment refuses it. *)
Definition syscall {A} (op : IoOp) (k : World → result A * World) : M A :=
  λ m, match faults (env m) op with
       | Some errno => (Raise (IOError errno), m)
       | None => let '(r, w') := k (env m) in (r, mkMachine (ctl m) w')
       end.

(** What is written to a file: ['%d' % number] (and [str(active_low)]),
    or a string as it is. *)
Inductive Token : Type :=
  | TokNum (n : Z)
  | TokStr (s : string).

Definition render (t : Token) : string :=
  match t with
  | TokNum n => pretty n
  | TokStr s => s
  end.

(** What the kernel does with a token written to an endpoint: the export
    and unexport endpoints create and remove the pin's directory, the
    value endpoint drives the line. *)
Definition kernel_write (ep : Endpoint) (t : Token) (w : World) : World :=
  match ep, t with
  | Export, TokNum n => set_exported ({[n]} ∪ exported w) w
  | Unexport, TokNum n => set_exported (exported w ∖ {[n]}) w
  | Value n, TokStr s =>
      if String.eqb s SYSFS_GPIO_VALUE_HIGH
      then set_level (λ k, if decide (k = n) then 1 else level w k) w
      else if String.eqb s SYSFS_GPIO_VALUE_LOW
      then set_level (λ k, if decide (k = n) then 0 else level w k) w
      else w
  | _, _ => w
  end.

(** The integer the text read from an endpoint parses to. *)
Definition kernel_read (ep : Endpoint) (w : World) : Z :=
  match ep with
  | Value n => level w n
  | _ => 0
  end.

(** [f.write(data)] on a file, be it [with open(path, 'w') as f] or the
    value file a pin keeps open. *)
Definition write_file (ep : Endpoint) (t : Token) : M unit :=
  syscall (OpWrite ep)
    (λ w, (Ok tt, log (EvWrite ep (render t)) (kernel_write ep t w))).

(** [int(f.read())] *)
Definition read_file (ep : Endpoint) : M Z :=
  syscall (OpRead ep) (λ w, (Ok (kernel_read ep w), log (EvRead ep) w)).

(** [open(path, 'r+')] *)
Definition open_file (ep : Endpoint) : M File :=
  syscall (OpOpen ep)
    (λ w, let fd := next_fd w in
          (Ok (mkFile fd ep), log (EvOpen ep fd) (set_next_fd (fd + 1) w))).

(** [os.path.isdir(SYSFS_GPIO_PATH % number)] *)
Definition path_isdir (number : Z) : M bool :=
  λ m, (Ok (bool_decide (number ∈ exported (env m))), m).

(** [epoll.register(fd, mask)]: an armed descriptor is refused. *)
Definition epoll_register (fd mask : Z) : M unit :=
  syscall (OpRegister fd)
    (λ w, if decide (fd ∈ registered w)
          then (Raise (IOError EEXIST), w)
          else (Ok tt, log (EvRegister fd mask)
                           (set_registered ({[fd]} ∪ registered w) w))).

(** [epoll.unregister(fd)]: an unknown descriptor is refused. *)
Definition epoll_unregister (fd : Z) : M unit :=
  syscall (OpUnregister fd)
    (λ w, if decide (fd ∈ registered w)
          then (Ok tt, log (EvUnregister fd)
                           (set_registered (registered w ∖ {[fd]}) w))
          else (Raise (IOError ENOENT), w)).

(** ** class Pin: the methods *)

(** Python truth of an [edge] argument: [None] and [''] are false. *)
Definition truthy (edge : option string) : bool :=
  match edge with
  | Some s => negb (String.eqb s "")
  | None => false
  end.

(** [str(edge)] *)
Definition py_str (edge : option string) : string :=
  match edge with
  | Some s => s
  | None => "None"
  end.

(** [str] of a tuple of two or more strings. *)
Definition py_tuple (l : list string) : string :=
  "(" +:+ String.concat ", " (map (λ s, "'" +:+ s +:+ "'") l) +:+ ")".

Definition when (b : bool) (c : M unit) : M unit :=
  if b then c else ret tt.

Definition InvalidPolarity : PyExc :=
  Exception "You must supply a value for active_low which is either 0 or 1.".
Definition MissingEdge : PyExc :=
  Exception "You must supply a edge to trigger callback on".

(** [Pin.__init__] *)
Definition Pin_init (number : Z) (direction : string)
    (callback : option Callback) (edge : option string) (active_low : Z)
    : M Pin :=
  fd <- open_file (Value number) ;;
  when (bool_decide (is_Some callback) && negb (truthy edge))
       (raise MissingEdge) ;;;
  write_file (Direction number) (TokStr direction) ;;;
  when (truthy edge) (write_file (Edge number) (TokStr (py_str edge))) ;;;
  when (negb (Z.eqb active_low 0))
       (when (negb (bool_decide (active_low ∈ ACTIVE_LOW_MODES)))
             (raise InvalidPolarity) ;;;
        write_file (ActiveLow number) (TokNum active_low)) ;;;
  ret (mkPin number direction callback active_low fd).

(** [Pin.set] *)
Definition Pin_set (p : Pin) : M unit :=
  write_file (f_name (_fd p)) (TokStr SYSFS_GPIO_VALUE_HIGH).

(** [Pin.reset] *)
Definition Pin_reset (p : Pin) : M unit :=
  write_file (f_name (_fd p)) (TokStr SYSFS_GPIO_VALUE_LOW).

(** [Pin.read] *)
Definition Pin_read (p : Pin) : M Z :=
  read_file (f_name (_fd p)).

(** [Pin.fileno] *)
Definition Pin_fileno (p : Pin) : Z := f_fileno (_fd p).

(** Calling a user callback: the call is recorded, and what the callback
    raises comes out of the call. *)
Definition call (f : Callback) (number state : Z) : M unit :=
  λ m, let m' := mkMachine (ctl m) (log (EvCallback number state) (env m)) in
       match f number state with
       | None => (Ok tt, m')
       | Some e => (Raise e, m')
       end.

(** [Pin.changed] *)
Definition Pin_changed (p : Pin) (state : Z) : M unit :=
  match _callback p with
  | Some f => call f (_number p) state
  | None => ret tt
  end.

(** ** class Controller: the methods *)

(** A [for] loop whose body may raise: the first exception ends it. *)
Fixpoint for_each {A} (l : list A) (body : A → M unit) : M unit :=
  match l with
  | [] => ret tt
  | x :: l' => body x ;;; for_each l' body
  end.

(** [self._allocated_pins.values()] *)
Definition values (pins : gmap Z Pin) : list Pin := (map_to_list pins).*2.

Definition set_allocated (pins : gmap Z Pin) (c : Controller) : Controller :=
  mkController pins (_available_pins c) (_running c).
Definition set_running (b : bool) (c : Controller) : Controller :=
  mkController (_allocated_pins c) (_available_pins c) b.
Definition set_available (l : list Z) (c : Controller) : Controller :=
  mkController (_allocated_pins c) l (_running c).

(** The state [Controller.__new__] builds. *)
Definition new_controller : Controller := mkController ∅ [] true.

Definition OutOfRange : PyExc := Exception "Pin number out of range".
Definition AlreadyAllocated : PyExc := Exception "Pin already allocated".
(** ['Pin %d not allocated' % number] *)
Definition NotAllocated (number : Z) : PyExc :=
  Exception ("Pin " +:+ pretty number +:+ " not allocated").

(** [number in self._allocated_pins] *)
Definition allocated (number : Z) (c : Controller) : bool :=
  bool_decide (is_Some (_allocated_pins c !! number)).

(** [Controller._check_pin_validity] *)
Definition _check_pin_validity (number : Z) : M unit :=
  c <- get_ctl ;;
  when (negb (bool_decide (number ∈ _available_pins c))) (raise OutOfRange) ;;;
  when (allocated number c) (raise AlreadyAllocated).

(** [Controller._check_pin_already_exported] *)
Definition _check_pin_already_exported (number : Z) : M bool :=
  path_isdir number.

(** [Controller._poll_queue_register_pin] *)
Definition _poll_queue_register_pin (pin : Pin) : M unit :=
  epoll_register (Pin_fileno pin) (Z.lor EPOLLPRI EPOLLET).

(** [Controller._poll_queue_unregister_pin] *)
Definition _poll_queue_unregister_pin (pin : Pin) : M unit :=
  epoll_unregister (Pin_fileno pin).

(** The tests [direction is INPUT] and [pin.direction == INPUT].  The
    directions in use are the interned constants of the module, on which
    identity and equality agree. *)
Definition is_INPUT (direction : string) : bool := String.eqb direction INPUT.

(** [Controller.alloc_pin] *)
Definition alloc_pin (number : Z) (direction : string)
    (callback : option Callback) (edge : option string) (active_low : Z)
    : M Pin :=
  _check_pin_validity number ;;;
  when (negb (bool_decide (direction ∈ DIRECTIONS)))
       (raise (Exception ("Pin direction " +:+ direction +:+ " not in "
                          +:+ py_tuple DIRECTIONS))) ;;;
  when (bool_decide (is_Some callback)
        && negb (bool_decide (edge ∈ Some <$> EDGES)))
       (raise (Exception ("Pin edge " +:+ py_str edge +:+ " not in "
                          +:+ py_tuple EDGES))) ;;;
  already <- _check_pin_already_exported number ;;
  when (negb already) (write_file Export (TokNum number)) ;;;
  pin <- Pin_init number direction callback edge active_low ;;
  when (is_INPUT direction) (_poll_queue_register_pin pin) ;;;
  c <- get_ctl ;;
  put_ctl (set_allocated (<[number := pin]> (_allocated_pins c)) c) ;;;
  ret pin.

(** [Controller.dealloc_pin].  [GPIOController.dealloc_pin] of the older
    module [src/sysfs/gpio.py] takes the same steps in the same order. *)
Definition dealloc_pin (number : Z) : M unit :=
  c <- get_ctl ;;
  match _allocated_pins c !! number with
  | None => raise (NotAllocated number)
  | Some pin =>
      write_file Unexport (TokNum number) ;;;
      when (is_INPUT (_direction pin)) (_poll_queue_unregister_pin pin) ;;;
      c <- get_ctl ;;
      put_ctl (set_allocated (delete number (_allocated_pins c)) c)
  end.

(** [Controller.stop] *)
Definition stop : M unit :=
  c <- get_ctl ;;
  put_ctl (set_running false c) ;;;
  c <- get_ctl ;;
  for_each (values (_allocated_pins c)) (λ pin, dealloc_pin (_number pin)).

(** [Controller.get_pin] *)
Definition get_pin (number : Z) : M Pin :=
  c <- get_ctl ;;
  match _allocated_pins c !! number with
  | Some pin => ret pin
  | None => raise (KeyError number)
  end.

(** [Controller.set_pin] *)
Definition set_pin (number : Z) : M unit :=
  c <- get_ctl ;;
  match _allocated_pins c !! number with
  | None => raise (NotAllocated number)
  | Some pin => Pin_set pin
  end.

(** [Controller.reset_pin] *)
Definition reset_pin (number : Z) : M unit :=
  c <- get_ctl ;;
  match _allocated_pins c !! number with
  | None => raise (NotAllocated number)
  | Some pin => Pin_reset pin
  end.

(** [Controller.get_pin_state] *)
Definition get_pin_state (number : Z) : M bool :=
  c <- get_ctl ;;
  match _allocated_pins c !! number with
  | None => raise (NotAllocated number)
  | Some pin =>
      when (is_INPUT (_direction pin)) (_poll_queue_unregister_pin pin) ;;;
      val <- Pin_read pin ;;
      when (is_INPUT (_direction pin)) (_poll_queue_register_pin pin) ;;;
      if Z.leb val 0 then ret false else ret true
  end.

(** The body of the inner loop of [_poll_queue_event]. *)
Definition scan_pin (fd : Z) (pin : Pin) : M unit :=
  if Z.eqb (Pin_fileno pin) fd
  then (val <- Pin_read pin ;; Pin_changed pin val)
  else ret tt.

(** The inner loop of [_poll_queue_event]. *)
Definition scan (fd : Z) (l : list Pin) : M unit :=
  for_each l (scan_pin fd).

(** The body of the outer loop of [_poll_queue_event], for one
    [(fd, event)] pair. *)
Definition dispatch_event (ev : Z * Z) : M unit :=
  let '(fd, event) := ev in
  if Z.eqb (Z.land event (Z.lor EPOLLPRI EPOLLET)) 0 then ret tt
  else
    c <- get_ctl ;;
    scan fd (values (_allocated_pins c)).

(** [Controller._poll_queue_event] *)
Definition _poll_queue_event (events : list (Z * Z)) : M unit :=
  for_each events dispatch_event.

(** * Vocabulary of the statements *)

(** ** Runs and their effects *)

Definition run {A} (c : M A) (m : Machine) : Machine := (c m).2.

(** The events a run appends to the trace. *)
Definition effects_of {A} (c : M A) (m : Machine) : list Event :=
  drop (length (trace (env m))) (trace (env (run c m))).

(** [a] occurs in [l], and [b] occurs after its first occurrence. *)
Fixpoint before (a b : Event) (l : list Event) : bool :=
  match l with
  | [] => false
  | x :: l' => if decide (x = a) then bool_decide (b ∈ l') else before a b l'
  end.

(** The number of calls of the callback of pin [number] among events. *)
Definition calls_of (number : Z) (l : list Event) : nat :=
  length (filter (λ ev, match ev with
                        | EvCallback n _ => bool_decide (n = number)
                        | _ => false
                        end = true) l).

(** A computation that leaves the controller as it is. *)
Definition keeps_ctl {A} (c : M A) : Prop :=
  ∀ m r m', c m = (r, m') → ctl m' = ctl m.

(** A computation that leaves the epoll set and the descriptor counter
    as they are. *)
Definition keeps_poller {A} (c : M A) : Prop :=
  ∀ m r m', c m = (r, m') →
    registered (env m') = registered (env m)
    ∧ next_fd (env m') = next_fd (env m).

(** ** Invariants of the registry and of its environment *)

(** Every pin sits under its own number. *)
Definition keys_ok (c : Controller) : Prop :=
  ∀ n p, _allocated_pins c !! n = Some p → _number p = n.

(** A pin found under the same key before and after has kept its number
    and its direction. *)
Definition attrs_kept (c c' : Controller) : Prop :=
  ∀ n p p', _allocated_pins c !! n = Some p →
            _allocated_pins c' !! n = Some p' →
            _number p' = _number p ∧ _direction p' = _direction p.

(** One descriptor per allocated pin: the descriptors of the pins in the
    dictionary are pairwise distinct. *)
Definition fd_unique (c : Controller) : Prop :=
  NoDup (Pin_fileno <$> values (_allocated_pins c)).

(** Every armed descriptor was handed out by [open]. *)
Definition poller_ok (w : World) : Prop :=
  ∀ fd, fd ∈ registered w → fd < next_fd w.

(** The environment refuses no system call. *)
Definition no_fault (w : World) : Prop := ∀ op, faults w op = None.

(** No read of a pin in [l] is refused, and no callback of one raises. *)
Definition calm (w : World) (l : list Pin) : Prop :=
  ∀ pin, pin ∈ l →
    faults w (OpRead (f_name (_fd pin))) = None
    ∧ ∀ f state, _callback pin = Some f → f (_number pin) state = None.

(** The registry and the poller agree: pins sit under their numbers with
    pairwise distinct descriptors, all handed out by [open], and a pin's
    descriptor is armed exactly when the pin is an input. *)
Definition consistent (m : Machine) : Prop :=
  keys_ok (ctl m) ∧ fd_unique (ctl m) ∧ poller_ok (env m)
  ∧ ∀ n pin, _allocated_pins (ctl m) !! n = Some pin →
      Pin_fileno pin < next_fd (env m)
      ∧ (Pin_fileno pin ∈ registered (env m) ↔ _direction pin = INPUT).

(** ** Expected results *)

(** The pin [Pin.__init__] builds on a machine. *)
Definition Pin_built (number : Z) (direction : string)
    (callback : option Callback) (active_low : Z) (m : Machine) : Pin :=
  mkPin number direction callback active_low
        (mkFile (next_fd (env m)) (Value number)).

(** The state a successful [dealloc_pin] of an INPUT pin ends in. *)
Definition dealloc_pin_end (number : Z) (pin : Pin) (m : Machine) : Machine :=
  let w1 := log (EvWrite Unexport (pretty number))
                (set_exported (exported (env m) ∖ {[number]}) (env m)) in
  let w2 := log (EvUnregister (Pin_fileno pin))
                (set_registered (registered w1 ∖ {[Pin_fileno pin]}) w1) in
  mkMachine (set_allocated (delete number (_allocated_pins (ctl m))) (ctl m))
            w2.

(** What the scan of [_poll_queue_event] does on one pin for descriptor
    [fd], when nothing goes wrong: a read and, if a callback is set, one
    call of it with the pin's number and the value read. *)
Definition pin_events (fd : Z) (w : World) (pin : Pin) : list Event :=
  if Z.eqb (Pin_fileno pin) fd
  then EvRead (f_name (_fd pin))
       :: match _callback pin with
          | Some _ =>
              [EvCallback (_number pin) (kernel_read (f_name (_fd pin)) w)]
          | None => []
          end
  else [].

(** What the dispatch of one [(fd, mask)] pair has to perform. *)
Inductive dispatched (c : Controller) (w : World) : Z * Z → list Event → Prop :=
  | dispatched_skip fd mask :
      Z.land mask (Z.lor EPOLLPRI EPOLLET) = 0 →
      dispatched c w (fd, mask) []
  | dispatched_nobody fd mask :
      Z.land mask (Z.lor EPOLLPRI EPOLLET) ≠ 0 →
      (∀ n pin, _allocated_pins c !! n = Some pin → Pin_fileno pin ≠ fd) →
      dispatched c w (fd, mask) []
  | dispatched_pin fd mask n pin :
      Z.land mask (Z.lor EPOLLPRI EPOLLET) ≠ 0 →
      _allocated_pins c !! n = Some pin →
      Pin_fileno pin = fd →
      dispatched c w (fd, mask)
        (EvRead (f_name (_fd pin))
         :: match _callback pin with
            | Some _ =>
                [EvCallback (_number pin)
                            (kernel_read (f_name (_fd pin)) w)]
            | None => []
            end).

(** ** A board with pins 4 and 17 *)

Definition no_faults : IoOp → option Z := λ _, None.

(** The machine at start-up, once the host has set [available_pins]. *)
Definition boot (available : list Z) : Machine :=
  mkMachine (set_available available new_controller)
            (mkWorld ∅ ∅ 3 (λ _, 0) [] no_faults).

(** A callback that raises, and one that returns. *)
Definition noisy : Callback := λ _ _, Some (Exception "boom").
Definition quiet : Callback := λ _ _, None.

Definition m_boot : Machine := boot [4; 17].

(** Pin 17 allocated as an input with a callback on both edges. *)
Definition m17 : Machine :=
  run (alloc_pin 17 INPUT (Some quiet) (Some BOTH) 0) m_boot.

(** Pin 4 allocated next, with a callback that raises. *)
Definition m_two : Machine :=
  run (alloc_pin 4 INPUT (Some noisy) (Some BOTH) 0) m17.

Definition pin17 : Pin := mkPin 17 INPUT (Some quiet) 0 (mkFile 3 (Value 17)).
Definition pin4 : Pin := mkPin 4 INPUT (Some noisy) 0 (mkFile 4 (Value 4)).

(** ** The property setters, and what a successful allocation performs *)

(** [Controller.available_pins] (the getter) *)
Definition available_pins : M (list Z) :=
  c <- get_ctl ;; ret (_available_pins c).

(** [Controller.available_pins = value] (the setter) *)
Definition set_available_pins (value : list Z) : M unit :=
  c <- get_ctl ;; put_ctl (set_available value c).

(** [pin.callback = value] on a pin object *)
Definition with_callback (value : option Callback) (pin : Pin) : Pin :=
  mkPin (_number pin) (_direction pin) value (_active_low pin) (_fd pin).

(** [Controller.get_pin(number).callback = value]: the pin object is the
    one the dictionary holds, so the assignment shows there. *)
Definition assign_callback (number : Z) (value : option Callback) : M unit :=
  pin <- get_pin number ;;
  c <- get_ctl ;;
  put_ctl (set_allocated (<[number := with_callback value pin]>
                            (_allocated_pins c)) c).

(** What [Pin.__init__] does to its environment when nothing is refused
    and the polarity is valid. *)
Definition Pin_init_events (number : Z) (direction : string)
    (edge : option string) (active_low fd : Z) : list Event :=
  [EvOpen (Value number) fd; EvWrite (Direction number) direction]
  ++ (if truthy edge then [EvWrite (Edge number) (py_str edge)] else [])
  ++ (if Z.eqb active_low 0 then []
      else [EvWrite (ActiveLow number) (pretty active_low)]).

(** What a successful [alloc_pin] does to its environment; [already] tells
    whether the directory of the pin existed. *)
Definition alloc_pin_events (already : bool) (number : Z) (direction : string)
    (edge : option string) (active_low fd : Z) : list Event :=
  (if already then [] else [EvWrite Export (pretty number)])
  ++ Pin_init_events number direction edge active_low fd
  ++ (if is_INPUT direction
      then [EvRegister fd (Z.lor EPOLLPRI EPOLLET)] else []).

(** The arguments [alloc_pin] accepts on a machine. *)
Definition valid_args (m : Machine) (number : Z) (direction : string)
    (callback : option Callback) (edge : option string) (active_low : Z)
    : Prop :=
  number ∈ _available_pins (ctl m)
  ∧ _allocated_pins (ctl m) !! number = None
  ∧ direction ∈ DIRECTIONS
  ∧ (is_Some callback → edge ∈ Some <$> EDGES)
  ∧ active_low ∈ ACTIVE_LOW_MODES.

(** The exception is the [IOError] of a refused system call. *)
Definition is_IOError (e : PyExc) : Prop := ∃ errno, e = IOError errno.

Global Instance IoOp_eq_dec : EqDecision IoOp.
Proof. solve_decision. Defined.

(** The machine [m] in an environment that refuses the system call [op]
    with [errno], and the machine [m] whose descriptor [fd] was disarmed
    behind the controller's back. *)
Definition refusing (op : IoOp) (errno : Z) (m : Machine) : Machine :=
  mkMachine (ctl m)
    (mkWorld (exported (env m)) (registered (env m)) (next_fd (env m))
             (level (env m)) (trace (env m))
             (λ op', if bool_decide (op' = op) then Some errno
                     else faults (env m) op')).

Definition disarmed (fd : Z) (m : Machine) : Machine :=
  mkMachine (ctl m) (set_registered (registered (env m) ∖ {[fd]}) (env m)).

(** ** Runs that only observe *)

(** Reading a value file and calling a user callback are the two events
    that change nothing in the kernel or the poller. *)
Definition is_observation (ev : Event) : bool :=
  match ev with
  | EvRead _ | EvCallback _ _ => true
  | _ => false
  end.

(** [m'] is [m] with reads and callback calls appended to the trace. *)
Definition observed (m m' : Machine) : Prop :=
  ctl m' = ctl m
  ∧ exported (env m') = exported (env m)
  ∧ registered (env m') = registered (env m)
  ∧ next_fd (env m') = next_fd (env m)
  ∧ level (env m') = level (env m)
  ∧ faults (env m') = faults (env m)
  ∧ ∃ evs, trace (env m') = (trace (env m) ++ evs)%list
           ∧ Forall (λ ev, is_observation ev = true) evs.

Definition observes_only {A} (c : M A) : Prop :=
  ∀ m r m', c m = (r, m') → observed m m'.

(** * Reasoning about runs *)

Section MonadLemmas.
Context {A B : Type}.
Implicit Types (c : M A) (k : A → M B) (m : Machine).

Lemma bind_Ok c k m a m' : c m = (Ok a, m') → bind c k m = k a m'.
Proof. intros H. unfold bind. by rewrite H. Qed.

Lemma bind_Raise c k m e m' :
  c m = (Raise e, m') → bind c k m = (Raise e, m').
Proof. intros H. unfold bind. by rewrite H. Qed.

Lemma bind_inv c k m r m2 :
  bind c k m = (r, m2) →
  (∃ a m1, c m = (Ok a, m1) ∧ k a m1 = (r, m2))
  ∨ (∃ e, c m = (Raise e, m2) ∧ r = Raise e).
Proof.
  unfold bind. destruct (c m) as [[a|e] m1]; intros H.
  - left. eauto.
  - right. inversion H; subst. eauto.
Qed.
End MonadLemmas.

(** Split a run of [x <- c ;; k] into the run of [c] and, when [c]
    returned, the run of [k]. *)
Ltac bind_inv H :=
  let a := fresh "a" in
  let m1 := fresh "m" in
  let e := fresh "e" in
  let H1 := fresh "Hrun" in
  let H2 := fresh "Hrest" in
  apply bind_inv in H;
  destruct H as [(a & m1 & H1 & H2) | (e & H1 & H2)];
  rename H2 into H.

(** ** Computations that leave the controller alone *)

Create HintDb keeps discriminated.

Lemma keeps_ret {A} (a : A) : keeps_ctl (ret a).
Proof. intros m r m' H. by inversion H. Qed.

Lemma keeps_raise {A} e : keeps_ctl (@raise A e).
Proof. intros m r m' H. by inversion H. Qed.

Lemma keeps_get_ctl : keeps_ctl get_ctl.
Proof. intros m r m' H. by inversion H. Qed.

Lemma keeps_bind {A B} (c : M A) (k : A → M B) :
  keeps_ctl c → (∀ a, keeps_ctl (k a)) → keeps_ctl (bind c k).
Proof.
  intros Hc Hk m r m' H. bind_inv H.
  - rewrite (Hk _ _ _ _ H). eauto.
  - eauto.
Qed.

Lemma keeps_when b c : keeps_ctl c → keeps_ctl (when b c).
Proof. destruct b; simpl; auto using keeps_ret. Qed.

Lemma keeps_syscall {A} op (k : World → result A * World) :
  keeps_ctl (syscall op k).
Proof.
  intros m r m' H. unfold syscall in H.
  destruct (faults (env m) op).
  - by inversion H.
  - destruct (k (env m)). by inversion H.
Qed.

Lemma keeps_call f number state : keeps_ctl (call f number state).
Proof.
  intros m r m' H. unfold call in H.
  destruct (f number state); by inversion H.
Qed.

Lemma keeps_for_each {A} (l : list A) body :
  (∀ x, keeps_ctl (body x)) → keeps_ctl (for_each l body).
Proof.
  intros Hb. induction l; simpl; auto using keeps_ret, keeps_bind.
Qed.

#[export] Hint Resolve keeps_ret keeps_raise keeps_get_ctl keeps_bind
  keeps_when keeps_syscall keeps_call keeps_for_each : keeps.

Lemma keeps_write_file ep t : keeps_ctl (write_file ep t).
Proof. unfold write_file. auto with keeps. Qed.

Lemma keeps_read_file ep : keeps_ctl (read_file ep).
Proof. unfold read_file. auto with keeps. Qed.

Lemma keeps_open_file ep : keeps_ctl (open_file ep).
Proof. unfold open_file. auto with keeps. Qed.

Lemma keeps_epoll_register fd mask : keeps_ctl (epoll_register fd mask).
Proof. unfold epoll_register. auto with keeps. Qed.

Lemma keeps_epoll_unregister fd : keeps_ctl (epoll_unregister fd).
Proof. unfold epoll_unregister. auto with keeps. Qed.

Lemma keeps_path_isdir number : keeps_ctl (path_isdir number).
Proof. intros m r m' H. by inversion H. Qed.

#[export] Hint Resolve keeps_write_file keeps_read_file keeps_open_file
  keeps_epoll_register keeps_epoll_unregister keeps_path_isdir : keeps.

Lemma keeps_Pin_init number direction callback edge active_low :
  keeps_ctl (Pin_init number direction callback edge active_low).
Proof. unfold Pin_init. auto 20 with keeps. Qed.

Lemma keeps_check_pin_validity number :
  keeps_ctl (_check_pin_validity number).
Proof. unfold _check_pin_validity. auto 10 with keeps. Qed.

Lemma keeps_Pin_changed p state : keeps_ctl (Pin_changed p state).
Proof. unfold Pin_changed. destruct (_callback p); auto with keeps. Qed.

Lemma keeps_poll_queue_register_pin pin :
  keeps_ctl (_poll_queue_register_pin pin).
Proof. unfold _poll_queue_register_pin. auto with keeps. Qed.

Lemma keeps_poll_queue_unregister_pin pin :
  keeps_ctl (_poll_queue_unregister_pin pin).
Proof. unfold _poll_queue_unregister_pin. auto with keeps. Qed.

Lemma keeps_check_pin_already_exported number :
  keeps_ctl (_check_pin_already_exported number).
Proof. unfold _check_pin_already_exported. auto with keeps. Qed.

#[export] Hint Resolve keeps_Pin_init keeps_check_pin_validity
  keeps_Pin_changed keeps_poll_queue_register_pin
  keeps_poll_queue_unregister_pin keeps_check_pin_already_exported : keeps.

(** Turn every finished run of a controller-preserving computation in
    the context into the equation between the two controllers. *)
Ltac keeps_all :=
  repeat match goal with
  | H : ?c ?m = (_, ?m') |- _ =>
      let E := fresh "Hk" in
      assert (E : keeps_ctl c) by auto 20 with keeps;
      apply E in H; clear E
  end.

Ltac binds_inv :=
  repeat match goal with
  | H : bind _ _ _ = (_, _) |- _ => bind_inv H
  end.

Lemma ret_inv {A} (a : A) m r m' : ret a m = (r, m') → r = Ok a ∧ m' = m.
Proof. intros H. by inversion H. Qed.

Lemma Pin_init_attrs number direction callback edge active_low m pin m' :
  Pin_init number direction callback edge active_low m = (Ok pin, m') →
  _number pin = number ∧ _direction pin = direction
  ∧ _callback pin = callback ∧ _active_low pin = active_low.
Proof.
  unfold Pin_init. intros H. binds_inv; try discriminate.
  apply ret_inv in H as [H _]. by inversion H.
Qed.

Lemma check_pin_validity_inv number m m' :
  _check_pin_validity number m = (Ok tt, m') →
  m' = m ∧ number ∈ _available_pins (ctl m)
  ∧ _allocated_pins (ctl m) !! number = None.
Proof.
  unfold _check_pin_validity, bind, get_ctl, when, allocated.
  case_bool_decide; simpl; [|discriminate].
  case_bool_decide as Hal; simpl; [discriminate|].
  intros Heq. inversion Heq; subst. split_and!; [done..|].
  destruct (_allocated_pins (ctl m') !! number) eqn:E; [|done].
  exfalso. apply Hal. eauto.
Qed.

(** What [alloc_pin] does to the controller: nothing when it raises, one
    insertion under [number] of the pin it returns otherwise. *)
Lemma alloc_pin_ctl number direction callback edge active_low m r m' :
  alloc_pin number direction callback edge active_low m = (r, m') →
  match r with
  | Ok pin =>
      ctl m' = set_allocated (<[number := pin]> (_allocated_pins (ctl m)))
                             (ctl m)
      ∧ _allocated_pins (ctl m) !! number = None
      ∧ _number pin = number ∧ _direction pin = direction
  | Raise _ => ctl m' = ctl m
  end.
Proof.
  unfold alloc_pin. intros H. binds_inv; subst.
  all: try discriminate.
  all: try (keeps_all; congruence).
  apply ret_inv in H as [-> ->].
  destruct a as []. apply check_pin_validity_inv in Hrun as (-> & _ & Hnone).
  destruct (Pin_init_attrs _ _ _ _ _ _ _ _ Hrun4) as (Hn & Hd & _).
  inversion Hrun6; subst; clear Hrun6.
  inversion Hrun7; subst; clear Hrun7. simpl.
  keeps_all. split_and!; try done. congruence.
Qed.

Lemma dealloc_pin_ctl number m r m' :
  dealloc_pin number m = (r, m') →
  match r with
  | Ok _ =>
      ctl m' = set_allocated (delete number (_allocated_pins (ctl m))) (ctl m)
      ∧ is_Some (_allocated_pins (ctl m) !! number)
  | Raise _ => ctl m' = ctl m
  end.
Proof.
  unfold dealloc_pin. intros H. bind_inv H; [|discriminate].
  inversion Hrun; subst; clear Hrun.
  destruct (_allocated_pins (ctl m0) !! number) as [pin|] eqn:Hpin.
  - binds_inv; subst; try discriminate.
    all: try (keeps_all; congruence).
    inversion Hrun1; subst; clear Hrun1.
    inversion H; subst; clear H. simpl.
    keeps_all. split; [congruence | eauto].
  - by inversion H.
Qed.

Lemma for_each_inv {A} (P : Machine → Prop) (l : list A) body :
  (∀ x m r m', P m → body x m = (r, m') → P m') →
  ∀ m r m', P m → for_each l body m = (r, m') → P m'.
Proof.
  intros Hb. induction l as [|x l IH]; simpl; intros m r m' HP H.
  - apply ret_inv in H as [_ ->]. done.
  - bind_inv H; subst; eauto.
Qed.

(** [stop] only ever removes pins, and clears [_running]. *)
Lemma stop_ctl m r m' :
  stop m = (r, m') →
  _allocated_pins (ctl m') ⊆ _allocated_pins (ctl m)
  ∧ _available_pins (ctl m') = _available_pins (ctl m)
  ∧ _running (ctl m') = false.
Proof.
  unfold stop. intros H. binds_inv; try discriminate.
  inversion Hrun; subst; clear Hrun.
  inversion Hrun0; subst; clear Hrun0.
  inversion Hrun1; subst; clear Hrun1.
  revert H. simpl.
  generalize (values (_allocated_pins (ctl m0))). intros l H.
  eapply (for_each_inv
    (λ mx, _allocated_pins (ctl mx) ⊆ _allocated_pins (ctl m0)
           ∧ _available_pins (ctl mx) = _available_pins (ctl m0)
           ∧ _running (ctl mx) = false)); [| |exact H]; [|done].
  intros pin mx rx mx' (Hsub & Hav & Hrn) Hd.
  apply dealloc_pin_ctl in Hd. destruct rx as [[]|e].
  - destruct Hd as [-> _]. simpl. split_and!; [|done..].
    etrans; [apply delete_subseteq|done].
  - by rewrite Hd.
Qed.

(** ** The key/number invariant of the registry *)

Lemma keys_ok_subseteq c c' :
  _allocated_pins c' ⊆ _allocated_pins c → keys_ok c → keys_ok c'.
Proof. intros Hsub Hok n p Hp. eapply Hok, lookup_weaken; eauto. Qed.

Lemma attrs_kept_subseteq c c' :
  _allocated_pins c' ⊆ _allocated_pins c → attrs_kept c c'.
Proof.
  intros Hsub n p p' Hp Hp'.
  eapply lookup_weaken in Hp'; [|exact Hsub]. by simplify_eq.
Qed.

Lemma attrs_kept_supseteq c c' :
  _allocated_pins c ⊆ _allocated_pins c' → attrs_kept c c'.
Proof.
  intros Hsub n p p' Hp Hp'.
  eapply lookup_weaken in Hp; [|exact Hsub]. by simplify_eq.
Qed.

Lemma new_controller_keys_ok : keys_ok new_controller.
Proof. intros n p H. simpl in H. by rewrite lookup_empty in H. Qed.

Lemma alloc_pin_keys m number direction callback edge active_low :
  keys_ok (ctl m) →
  let m' := run (alloc_pin number direction callback edge active_low) m in
  keys_ok (ctl m') ∧ attrs_kept (ctl m) (ctl m').
Proof.
  intros Hok. unfold run.
  destruct (alloc_pin number direction callback edge active_low m)
    as [r m'] eqn:E.
  apply alloc_pin_ctl in E. simpl. destruct r as [pin|e].
  - destruct E as (-> & Hnone & Hn & _). split.
    + intros n p. simpl. rewrite lookup_insert. case_decide.
      * intros [= <-]. congruence.
      * apply Hok.
    + apply attrs_kept_supseteq. simpl. by apply insert_subseteq.
  - rewrite E. split; [done|]. by apply attrs_kept_subseteq.
Qed.

Lemma dealloc_pin_keys m number :
  keys_ok (ctl m) →
  let m' := run (dealloc_pin number) m in
  keys_ok (ctl m') ∧ attrs_kept (ctl m) (ctl m').
Proof.
  intros Hok. unfold run.
  destruct (dealloc_pin number m) as [r m'] eqn:E.
  apply dealloc_pin_ctl in E. simpl.
  assert (_allocated_pins (ctl m') ⊆ _allocated_pins (ctl m)) as Hsub.
  { destruct r as [u|e].
    - destruct E as [-> _]. simpl. apply delete_subseteq.
    - by rewrite E. }
  split; [by eapply keys_ok_subseteq | by apply attrs_kept_subseteq].
Qed.

Lemma stop_keys m :
  keys_ok (ctl m) →
  let m' := run stop m in
  keys_ok (ctl m') ∧ attrs_kept (ctl m) (ctl m').
Proof.
  intros Hok. unfold run. destruct (stop m) as [r m'] eqn:E.
  apply stop_ctl in E as (Hsub & _). simpl.
  split; [by eapply keys_ok_subseteq | by apply attrs_kept_subseteq].
Qed.

(** ** Runs of the primitives *)

Lemma write_file_ok ep t m :
  faults (env m) (OpWrite ep) = None →
  write_file ep t m
  = (Ok tt, mkMachine (ctl m)
              (log (EvWrite ep (render t)) (kernel_write ep t (env m)))).
Proof. intros H. unfold write_file, syscall. by rewrite H. Qed.

Lemma read_file_ok ep m :
  faults (env m) (OpRead ep) = None →
  read_file ep m
  = (Ok (kernel_read ep (env m)), mkMachine (ctl m) (log (EvRead ep) (env m))).
Proof. intros H. unfold read_file, syscall. by rewrite H. Qed.

Lemma open_file_ok ep m :
  faults (env m) (OpOpen ep) = None →
  open_file ep m
  = (Ok (mkFile (next_fd (env m)) ep),
     mkMachine (ctl m)
       (log (EvOpen ep (next_fd (env m)))
            (set_next_fd (next_fd (env m) + 1) (env m)))).
Proof. intros H. unfold open_file, syscall. by rewrite H. Qed.

Lemma epoll_register_ok fd mask m :
  faults (env m) (OpRegister fd) = None →
  fd ∉ registered (env m) →
  epoll_register fd mask m
  = (Ok tt, mkMachine (ctl m)
              (log (EvRegister fd mask)
                   (set_registered ({[fd]} ∪ registered (env m)) (env m)))).
Proof.
  intros H Hfd. unfold epoll_register, syscall. rewrite H.
  by rewrite decide_False.
Qed.

Lemma epoll_unregister_ok fd m :
  faults (env m) (OpUnregister fd) = None →
  fd ∈ registered (env m) →
  epoll_unregister fd m
  = (Ok tt, mkMachine (ctl m)
              (log (EvUnregister fd)
                   (set_registered (registered (env m) ∖ {[fd]}) (env m)))).
Proof.
  intros H Hfd. unfold epoll_unregister, syscall. rewrite H.
  by rewrite decide_True.
Qed.

Lemma kernel_read_ext ep w w' :
  level w = level w' → kernel_read ep w = kernel_read ep w'.
Proof. intros H. destruct ep; simpl; by rewrite ?H. Qed.

Lemma get_ctl_run m : get_ctl m = (Ok (ctl m), m).
Proof. reflexivity. Qed.

Lemma ret_run {A} (a : A) m : ret a m = (Ok a, m).
Proof. reflexivity. Qed.

(** Run the first computation of a sequence with a lemma giving its
    result. *)
Ltac step lem :=
  erewrite bind_Ok; [| apply lem; simpl; try done].

Lemma check_pin_validity_ok number m :
  number ∈ _available_pins (ctl m) →
  _allocated_pins (ctl m) !! number = None →
  _check_pin_validity number m = (Ok tt, m).
Proof.
  intros Hav Hnone. unfold _check_pin_validity, bind, get_ctl, when, allocated.
  rewrite bool_decide_eq_true_2 by done. simpl.
  rewrite bool_decide_eq_false_2; [done|]. rewrite Hnone. by intros [? ?].
Qed.

(** The four guarded accessors on a number that is not allocated. *)
Lemma guarded_accessors_not_allocated number m :
  _allocated_pins (ctl m) !! number = None →
  set_pin number m = (Raise (NotAllocated number), m)
  ∧ reset_pin number m = (Raise (NotAllocated number), m)
  ∧ get_pin_state number m = (Raise (NotAllocated number), m)
  ∧ dealloc_pin number m = (Raise (NotAllocated number), m).
Proof.
  intros H.
  unfold set_pin, reset_pin, get_pin_state, dealloc_pin, bind, get_ctl.
  by rewrite H.
Qed.

(** [get_pin] has no guard: the subscript raises [KeyError]. *)
Lemma get_pin_not_allocated number m :
  _allocated_pins (ctl m) !! number = None →
  get_pin number m = (Raise (KeyError number), m).
Proof. intros H. unfold get_pin, bind, get_ctl. by rewrite H. Qed.

Lemma effects_of_app {A} (c : M A) m r m' (l : list Event) :
  c m = (r, m') → trace (env m') = (trace (env m) ++ l)%list →
  effects_of c m = l.
Proof.
  intros Hc Ht. unfold effects_of, run. rewrite Hc. simpl. rewrite Ht.
  by rewrite drop_app_length.
Qed.

Lemma dealloc_pin_INPUT_run number pin m :
  _allocated_pins (ctl m) !! number = Some pin →
  _direction pin = INPUT →
  faults (env m) (OpWrite Unexport) = None →
  faults (env m) (OpUnregister (Pin_fileno pin)) = None →
  Pin_fileno pin ∈ registered (env m) →
  dealloc_pin number m = (Ok tt, dealloc_pin_end number pin m).
Proof.
  intros Hpin Hdir Hw Hu Hreg.
  unfold dealloc_pin. rewrite (bind_Ok _ _ _ _ _ (get_ctl_run m)). rewrite Hpin.
  rewrite (bind_Ok _ _ _ _ _ (write_file_ok _ _ _ Hw)).
  unfold is_INPUT. rewrite Hdir. simpl when.
  unfold _poll_queue_unregister_pin.
  step epoll_unregister_ok. reflexivity.
Qed.

(** ** Allocation in an environment that refuses nothing *)

Lemma truthy_EDGES (edge : option string) :
  edge ∈ Some <$> EDGES → truthy edge = true.
Proof.
  unfold EDGES. rewrite !fmap_cons, fmap_nil, !elem_of_cons, elem_of_nil.
  intros [->|[->|[->|[]]]]; reflexivity.
Qed.

Lemma bind_bind {A B C} (c : M A) (k : A → M B) (k' : B → M C) m :
  bind (bind c k) k' m = bind c (λ a, bind (k a) k') m.
Proof. unfold bind. destruct (c m) as [[a|e] m']; reflexivity. Qed.

Lemma when_false c m : when false c m = (Ok tt, m).
Proof. reflexivity. Qed.

Lemma Pin_init_ok number direction callback edge active_low m :
  no_fault (env m) →
  (is_Some callback → truthy edge = true) →
  ∃ m', Pin_init number direction callback edge active_low m
        = (if bool_decide (active_low ∈ ACTIVE_LOW_MODES)
           then Ok (Pin_built number direction callback active_low m)
           else Raise InvalidPolarity, m')
    ∧ ctl m' = ctl m
    ∧ faults (env m') = faults (env m)
    ∧ registered (env m') = registered (env m)
    ∧ exported (env m') = exported (env m)
    ∧ next_fd (env m') = next_fd (env m) + 1.
Proof.
  intros Hnf Hcb. unfold Pin_init.
  step open_file_ok.
  assert (bool_decide (is_Some callback) && negb (truthy edge) = false)
    as ->.
  { case_bool_decide as Hc; [|done]. by rewrite (Hcb Hc). }
  rewrite (bind_Ok _ _ _ _ _ (when_false _ _)).
  step write_file_ok.
  destruct (truthy edge).
  - simpl when. step write_file_ok.
    destruct (Z.eqb_spec active_low 0) as [->|Hal]; simpl when.
    + rewrite (bind_Ok _ _ _ _ _ (ret_run tt _)).
      eexists. split; [reflexivity|]. by simpl.
    + case_bool_decide as Hmode; simpl when.
      * rewrite bind_bind. rewrite (bind_Ok _ _ _ _ _ (ret_run tt _)).
        step write_file_ok.
        eexists. split; [reflexivity|]. by simpl.
      * eexists. split; [reflexivity|]. by simpl.
  - simpl when. rewrite (bind_Ok _ _ _ _ _ (ret_run tt _)).
    destruct (Z.eqb_spec active_low 0) as [->|Hal]; simpl when.
    + rewrite (bind_Ok _ _ _ _ _ (ret_run tt _)).
      eexists. split; [reflexivity|]. by simpl.
    + case_bool_decide as Hmode; simpl when.
      * rewrite bind_bind. rewrite (bind_Ok _ _ _ _ _ (ret_run tt _)).
        step write_file_ok.
        eexists. split; [reflexivity|]. by simpl.
      * eexists. split; [reflexivity|]. by simpl.
Qed.

Lemma path_isdir_run number m :
  path_isdir number m = (Ok (bool_decide (number ∈ exported (env m))), m).
Proof. reflexivity. Qed.

Lemma export_if_needed (already : bool) number m :
  faults (env m) (OpWrite Export) = None →
  ∃ m1, when (negb already) (write_file Export (TokNum number)) m = (Ok tt, m1)
    ∧ ctl m1 = ctl m ∧ faults (env m1) = faults (env m)
    ∧ registered (env m1) = registered (env m)
    ∧ next_fd (env m1) = next_fd (env m).
Proof.
  intros Hf. destruct already; simpl when.
  - eexists. split; [reflexivity|done].
  - rewrite (write_file_ok _ _ _ Hf). eexists. split; [reflexivity|done].
Qed.

(** With a valid free number, a valid direction and a valid edge for the
    callback, in an environment that refuses nothing, [alloc_pin] stands or
    falls with [active_low]. *)
Lemma alloc_pin_outcome number direction callback edge active_low m :
  number ∈ _available_pins (ctl m) →
  _allocated_pins (ctl m) !! number = None →
  direction ∈ DIRECTIONS →
  (is_Some callback → edge ∈ Some <$> EDGES) →
  no_fault (env m) →
  poller_ok (env m) →
  ∃ pin m',
    alloc_pin number direction callback edge active_low m
    = (if bool_decide (active_low ∈ ACTIVE_LOW_MODES)
       then Ok pin else Raise InvalidPolarity, m')
    ∧ _number pin = number ∧ _direction pin = direction
    ∧ _callback pin = callback ∧ _active_low pin = active_low
    ∧ (active_low ∈ ACTIVE_LOW_MODES →
       _allocated_pins (ctl m') = <[number := pin]> (_allocated_pins (ctl m))).
Proof.
  intros Hav Hnone Hdir Hedge Hnf Hpoll. unfold alloc_pin.
  rewrite (bind_Ok _ _ _ _ _ (check_pin_validity_ok _ _ Hav Hnone)).
  rewrite (bool_decide_eq_true_2 _ Hdir). simpl negb.
  rewrite (bind_Ok _ _ _ _ _ (when_false _ _)).
  match goal with
  | |- context [when (?b1 && negb ?b2)] =>
      assert (b1 && negb b2 = false) as ->
  end.
  { case_bool_decide as Hc; [|done].
    by rewrite (bool_decide_eq_true_2 _ (Hedge Hc)). }
  rewrite (bind_Ok _ _ _ _ _ (when_false _ _)).
  unfold _check_pin_already_exported.
  rewrite (bind_Ok _ _ _ _ _ (path_isdir_run _ _)).
  destruct (export_if_needed (bool_decide (number ∈ exported (env m)))
              number m (Hnf _))
    as (m1 & Hexp & Hc1 & Hf1 & Hr1 & Hn1).
  rewrite (bind_Ok _ _ _ _ _ Hexp).
  destruct (Pin_init_ok number direction callback edge active_low m1)
    as (m2 & Hinit & Hc2 & Hf2 & Hr2 & _ & Hn2).
  { intros op. rewrite Hf1. apply Hnf. }
  { intros Hc. by apply truthy_EDGES, Hedge. }
  exists (Pin_built number direction callback active_low m1).
  case_bool_decide as Hmode.
  - rewrite (bind_Ok _ _ _ _ _ Hinit).
    assert (Pin_fileno (Pin_built number direction callback active_low m1)
            ∉ registered (env m2)) as Hfresh.
    { rewrite Hr2, Hr1. intros Hin%Hpoll.
      unfold Pin_fileno, Pin_built in Hin. simpl in Hin. lia. }
    destruct (is_INPUT direction); simpl when.
    + unfold _poll_queue_register_pin.
      assert (faults (env m2) (OpRegister
                (Pin_fileno (Pin_built number direction callback active_low
                                       m1))) = None) as Hreg.
      { rewrite Hf2, Hf1. apply Hnf. }
      rewrite (bind_Ok _ _ _ _ _ (epoll_register_ok _ _ _ Hreg Hfresh)).
      eexists. split; [reflexivity|]. simpl. rewrite Hc2, Hc1. done.
    + rewrite (bind_Ok _ _ _ _ _ (ret_run tt _)).
      eexists. split; [reflexivity|]. simpl. rewrite Hc2, Hc1. done.
  - rewrite (bind_Raise _ _ _ _ _ Hinit).
    eexists. split; [reflexivity|]. done.
Qed.

(** ** Dispatching poller events *)

Lemma pin_events_ext fd w w' pin :
  level w = level w' → pin_events fd w pin = pin_events fd w' pin.
Proof.
  intros H. unfold pin_events. by rewrite (kernel_read_ext _ w w' H).
Qed.

Lemma scan_pin_run fd pin m :
  faults (env m) (OpRead (f_name (_fd pin))) = None →
  (∀ f state, _callback pin = Some f → f (_number pin) state = None) →
  ∃ m', scan_pin fd pin m = (Ok tt, m')
    ∧ ctl m' = ctl m
    ∧ faults (env m') = faults (env m)
    ∧ level (env m') = level (env m)
    ∧ trace (env m') = (trace (env m) ++ pin_events fd (env m) pin)%list.
Proof.
  intros Hread Hquiet. unfold scan_pin, pin_events.
  destruct (Z.eqb (Pin_fileno pin) fd).
  - unfold Pin_read. step read_file_ok.
    unfold Pin_changed. destruct (_callback pin) as [f|] eqn:Hcb.
    + unfold call. rewrite (Hquiet f _ eq_refl).
      eexists. split; [reflexivity|]. simpl. split_and!; [done..|].
      by rewrite <- app_assoc.
    + eexists. split; [reflexivity|]. by simpl.
  - exists m. split; [reflexivity|]. by rewrite app_nil_r.
Qed.

Lemma scan_run fd l : ∀ m,
  calm (env m) l →
  ∃ m', scan fd l m = (Ok tt, m')
    ∧ ctl m' = ctl m
    ∧ faults (env m') = faults (env m)
    ∧ level (env m') = level (env m)
    ∧ trace (env m')
      = (trace (env m) ++ flat_map (pin_events fd (env m)) l)%list.
Proof.
  induction l as [|pin l IH]; intros m Hcalm.
  - exists m. simpl. by rewrite app_nil_r.
  - destruct (Hcalm pin) as [Hread Hquiet]; [by left|].
    destruct (scan_pin_run fd pin m Hread Hquiet)
      as (m1 & Hrun1 & Hc1 & Hf1 & Hl1 & Ht1).
    destruct (IH m1) as (m' & Hrun & Hc & Hf & Hlv & Ht).
    { intros q Hq. rewrite Hf1. apply Hcalm. by right. }
    exists m'. unfold scan. simpl for_each.
    rewrite (bind_Ok _ _ _ _ _ Hrun1). split; [exact Hrun|].
    split_and!; [congruence..|].
    rewrite Ht, Ht1. simpl flat_map. rewrite <- app_assoc. do 2 f_equal.
    apply flat_map_ext. intros q. by apply pin_events_ext.
Qed.

Lemma pin_events_other fd w pin :
  Pin_fileno pin ≠ fd → pin_events fd w pin = [].
Proof.
  intros H. unfold pin_events.
  by destruct (Z.eqb_spec (Pin_fileno pin) fd).
Qed.

Lemma flat_map_pin_events_nobody fd w (l : list Pin) :
  (∀ pin, pin ∈ l → Pin_fileno pin ≠ fd) →
  flat_map (pin_events fd w) l = [].
Proof.
  induction l as [|q l IH]; intros H; [done|]. simpl.
  rewrite pin_events_other by (apply H; by left).
  apply IH. intros pin Hpin. apply H. by right.
Qed.

Lemma flat_map_pin_events_unique fd w (l : list Pin) pin :
  NoDup (Pin_fileno <$> l) → pin ∈ l → Pin_fileno pin = fd →
  flat_map (pin_events fd w) l = pin_events fd w pin.
Proof.
  induction l as [|q l IH]; intros Hnd Hin Hfd.
  - by apply elem_of_nil in Hin.
  - rewrite fmap_cons in Hnd. apply NoDup_cons in Hnd as [Hq Hnd].
    simpl. apply elem_of_cons in Hin as [->|Hin].
    + rewrite flat_map_pin_events_nobody; [by rewrite app_nil_r|].
      intros p Hp Hpfd. apply Hq. rewrite Hfd, <- Hpfd.
      by apply list_elem_of_fmap_2.
    + rewrite pin_events_other; [by apply IH|].
      intros Hqfd. apply Hq. rewrite Hqfd, <- Hfd.
      by apply list_elem_of_fmap_2.
Qed.

Lemma elem_of_values (pins : gmap Z Pin) pin :
  pin ∈ values pins ↔ ∃ n, pins !! n = Some pin.
Proof.
  unfold values. rewrite list_elem_of_fmap. split.
  - intros ([n p] & -> & Hin). exists n. by apply elem_of_map_to_list.
  - intros [n Hn]. exists (n, pin). split; [done|].
    by apply elem_of_map_to_list.
Qed.

Lemma dispatched_ext c w w' ev chunk :
  level w = level w' → dispatched c w ev chunk → dispatched c w' ev chunk.
Proof.
  intros Hl H. destruct H as [fd mask H0|fd mask H0 Hno|fd mask n pin H0 Hn Hfd].
  - by constructor.
  - by constructor.
  - rewrite (kernel_read_ext _ w w' Hl). by econstructor.
Qed.

Lemma dispatch_event_run ev m :
  fd_unique (ctl m) →
  calm (env m) (values (_allocated_pins (ctl m))) →
  ∃ m' chunk, dispatch_event ev m = (Ok tt, m')
    ∧ ctl m' = ctl m
    ∧ faults (env m') = faults (env m)
    ∧ level (env m') = level (env m)
    ∧ trace (env m') = (trace (env m) ++ chunk)%list
    ∧ dispatched (ctl m) (env m) ev chunk.
Proof.
  intros Huniq Hcalm. destruct ev as [fd mask]. unfold dispatch_event.
  destruct (Z.eqb_spec (Z.land mask (Z.lor EPOLLPRI EPOLLET)) 0) as [H0|H0].
  - exists m, []. rewrite app_nil_r. split_and!; [done..|]. by constructor.
  - rewrite (bind_Ok _ _ _ _ _ (get_ctl_run m)).
    destruct (scan_run fd (values (_allocated_pins (ctl m))) m Hcalm)
      as (m' & Hrun & Hc & Hf & Hl & Ht).
    exists m'. eexists. split; [exact Hrun|]. split_and!; [done..|exact Ht|].
    destruct (decide (fd ∈ Pin_fileno <$> values (_allocated_pins (ctl m))))
      as [Hin|Hout].
    + apply list_elem_of_fmap in Hin as (pin & Hfd & Hin).
      rewrite (flat_map_pin_events_unique fd _ _ pin Huniq Hin (eq_sym Hfd)).
      apply elem_of_values in Hin as [n Hn].
      unfold pin_events. rewrite <- Hfd, Z.eqb_refl.
      by eapply dispatched_pin.
    + rewrite flat_map_pin_events_nobody.
      * apply dispatched_nobody; [done|].
        intros n pin Hn Hfd. apply Hout. rewrite <- Hfd.
        apply list_elem_of_fmap_2, elem_of_values. eauto.
      * intros pin Hpin Hfd. apply Hout. rewrite <- Hfd.
        by apply list_elem_of_fmap_2.
Qed.

(** ** The registry and the poller stay consistent *)

Create HintDb poller discriminated.

Lemma poller_ret {A} (a : A) : keeps_poller (ret a).
Proof. intros m r m' H. by inversion H. Qed.

Lemma poller_raise {A} e : keeps_poller (@raise A e).
Proof. intros m r m' H. by inversion H. Qed.

Lemma poller_get_ctl : keeps_poller get_ctl.
Proof. intros m r m' H. by inversion H. Qed.

Lemma poller_put_ctl c : keeps_poller (put_ctl c).
Proof. intros m r m' H. by inversion H. Qed.

Lemma poller_bind {A B} (c : M A) (k : A → M B) :
  keeps_poller c → (∀ a, keeps_poller (k a)) → keeps_poller (bind c k).
Proof.
  intros Hc Hk m r m' H. bind_inv H.
  - destruct (Hc _ _ _ Hrun) as [H1 H2].
    destruct (Hk _ _ _ _ H) as [H3 H4]. split; congruence.
  - by eapply Hc.
Qed.

Lemma poller_when b c : keeps_poller c → keeps_poller (when b c).
Proof. destruct b; simpl; auto using poller_ret. Qed.

Lemma poller_write_file ep t : keeps_poller (write_file ep t).
Proof.
  intros m r m' H. unfold write_file, syscall in H.
  destruct (faults (env m) (OpWrite ep)); inversion H; subst; [done|].
  simpl. destruct ep, t; simpl; try done; repeat case_match; done.
Qed.

Lemma poller_read_file ep : keeps_poller (read_file ep).
Proof.
  intros m r m' H. unfold read_file, syscall in H.
  destruct (faults (env m) (OpRead ep)); by inversion H.
Qed.

Lemma poller_path_isdir number : keeps_poller (path_isdir number).
Proof. intros m r m' H. by inversion H. Qed.

Lemma poller_call f number state : keeps_poller (call f number state).
Proof.
  intros m r m' H. unfold call in H.
  destruct (f number state); by inversion H.
Qed.

#[export] Hint Resolve poller_ret poller_raise poller_get_ctl poller_put_ctl
  poller_bind poller_when poller_write_file poller_read_file
  poller_path_isdir poller_call : poller.

Lemma poller_check_pin_validity number :
  keeps_poller (_check_pin_validity number).
Proof. unfold _check_pin_validity. auto 10 with poller. Qed.

#[export] Hint Resolve poller_check_pin_validity : poller.

Lemma open_file_inv ep m r m' :
  open_file ep m = (r, m') →
  (∃ errno, r = Raise (IOError errno) ∧ m' = m)
  ∨ (r = Ok (mkFile (next_fd (env m)) ep)
     ∧ registered (env m') = registered (env m)
     ∧ next_fd (env m') = next_fd (env m) + 1).
Proof.
  unfold open_file, syscall. destruct (faults (env m) (OpOpen ep)) as [e|].
  - intros [= <- <-]. left. eauto.
  - intros [= <- <-]. right. done.
Qed.

Lemma epoll_register_inv fd mask m r m' :
  epoll_register fd mask m = (r, m') →
  next_fd (env m') = next_fd (env m)
  ∧ match r with
    | Ok _ => registered (env m') = {[fd]} ∪ registered (env m)
    | Raise _ => registered (env m') = registered (env m)
    end.
Proof.
  unfold epoll_register, syscall.
  destruct (faults (env m) (OpRegister fd)) as [e|].
  - by intros [= <- <-].
  - case_decide; by intros [= <- <-].
Qed.

Lemma epoll_unregister_inv fd m r m' :
  epoll_unregister fd m = (r, m') →
  next_fd (env m') = next_fd (env m)
  ∧ match r with
    | Ok _ => registered (env m') = registered (env m) ∖ {[fd]}
    | Raise _ => registered (env m') = registered (env m)
    end.
Proof.
  unfold epoll_unregister, syscall.
  destruct (faults (env m) (OpUnregister fd)) as [e|].
  - by intros [= <- <-].
  - case_decide; by intros [= <- <-].
Qed.

Lemma Pin_init_poller number direction callback edge active_low m r m' :
  Pin_init number direction callback edge active_low m = (r, m') →
  registered (env m') = registered (env m)
  ∧ match r with
    | Ok pin => Pin_fileno pin = next_fd (env m)
                ∧ next_fd (env m') = next_fd (env m) + 1
    | Raise _ => next_fd (env m) ≤ next_fd (env m')
    end.
Proof.
  unfold Pin_init. intros H. bind_inv H.
  - apply open_file_inv in Hrun as [(errno & [=] & _)|(Hfd & Hreg & Hnext)].
    injection Hfd as ->.
    eassert (keeps_poller _) as Hrest; [|destruct (Hrest _ _ _ H) as [Hr Hn]].
    { auto 20 with poller. }
    split; [congruence|]. destruct r as [pin|e]; [|lia].
    binds_inv; try discriminate. apply ret_inv in H as [[= ->] _].
    split; [done|lia].
  - subst. apply open_file_inv in Hrun as [(errno & _ & ->)|([=] & _)].
    split; [done|lia].
Qed.

Lemma when_register_inv (b : bool) pin m r m' :
  when b (_poll_queue_register_pin pin) m = (r, m') →
  next_fd (env m') = next_fd (env m)
  ∧ match r with
    | Ok _ => registered (env m')
              = if b then {[Pin_fileno pin]} ∪ registered (env m)
                else registered (env m)
    | Raise _ => registered (env m') = registered (env m)
    end.
Proof.
  destruct b; simpl.
  - apply epoll_register_inv.
  - intros [= <- <-]. done.
Qed.

Lemma when_unregister_inv (b : bool) pin m r m' :
  when b (_poll_queue_unregister_pin pin) m = (r, m') →
  next_fd (env m') = next_fd (env m)
  ∧ match r with
    | Ok _ => registered (env m')
              = if b then registered (env m) ∖ {[Pin_fileno pin]}
                else registered (env m)
    | Raise _ => registered (env m') = registered (env m)
    end.
Proof.
  destruct b; simpl.
  - apply epoll_unregister_inv.
  - intros [= <- <-]. done.
Qed.

(** Turn the finished runs in the context into what they did to the epoll
    set and to the descriptor counter. *)
Ltac poller_all :=
  repeat match goal with
  | H : Pin_init _ _ _ _ _ _ = (_, _) |- _ =>
      apply Pin_init_poller in H; destruct H as [? ?]
  | H : when _ (_poll_queue_register_pin _) _ = (_, _) |- _ =>
      apply when_register_inv in H; destruct H as [? ?]
  | H : when _ (_poll_queue_unregister_pin _) _ = (_, _) |- _ =>
      apply when_unregister_inv in H; destruct H as [? ?]
  | H : ?c ?m = (_, ?m') |- _ =>
      let E := fresh "Hp" in
      assert (E : keeps_poller c) by auto 20 with poller;
      apply E in H; clear E; destruct H as [? ?]
  end.

Lemma alloc_pin_poller number direction callback edge active_low m r m' :
  alloc_pin number direction callback edge active_low m = (r, m') →
  match r with
  | Ok pin =>
      Pin_fileno pin = next_fd (env m)
      ∧ next_fd (env m') = next_fd (env m) + 1
      ∧ registered (env m')
        = (if is_INPUT direction
           then {[Pin_fileno pin]} ∪ registered (env m)
           else registered (env m))
  | Raise _ =>
      registered (env m') = registered (env m)
      ∧ next_fd (env m) ≤ next_fd (env m')
  end.
Proof.
  unfold alloc_pin, _check_pin_already_exported. intros H.
  binds_inv; subst; try discriminate.
  all: try match goal with
           | H : ret _ _ = (_, _) |- _ => apply ret_inv in H as [-> ->]
           end.
  all: poller_all; destruct_and?; simpl.
  all: try (split; [congruence|lia]).
  split_and!; [congruence|lia|]. destruct (is_INPUT direction); congruence.
Qed.

Lemma dealloc_pin_poller number m r m' :
  dealloc_pin number m = (r, m') →
  next_fd (env m') = next_fd (env m)
  ∧ match r with
    | Ok _ =>
        ∃ pin, _allocated_pins (ctl m) !! number = Some pin
          ∧ registered (env m')
            = (if is_INPUT (_direction pin)
               then registered (env m) ∖ {[Pin_fileno pin]}
               else registered (env m))
    | Raise _ => registered (env m') = registered (env m)
    end.
Proof.
  unfold dealloc_pin. intros H. bind_inv H; [|discriminate].
  inversion Hrun; subst; clear Hrun.
  destruct (_allocated_pins (ctl m0) !! number) as [pin|] eqn:Hpin.
  - binds_inv; subst; try discriminate.
    all: try match goal with
             | H : put_ctl _ _ = (_, _) |- _ => inversion H; subst; clear H
             end.
    all: poller_all; simpl.
    all: try (split; congruence).
    split; [congruence|]. exists pin. split; [done|].
    destruct (is_INPUT (_direction pin)); congruence.
  - by inversion H.
Qed.

Lemma values_insert (pins : gmap Z Pin) n pin :
  pins !! n = None → values (<[n := pin]> pins) ≡ₚ pin :: values pins.
Proof.
  intros H. unfold values. by rewrite (map_to_list_insert pins n pin H).
Qed.

Lemma values_delete (pins : gmap Z Pin) n pin :
  pins !! n = Some pin → pin :: values (delete n pins) ≡ₚ values pins.
Proof.
  intros H. unfold values. by rewrite <- (map_to_list_delete pins n pin H).
Qed.

Lemma is_INPUT_true direction : is_INPUT direction = true ↔ direction = INPUT.
Proof. apply String.eqb_eq. Qed.

Lemma consistent_boot available : consistent (boot available).
Proof.
  split_and!.
  - apply new_controller_keys_ok.
  - unfold fd_unique, values. simpl. rewrite map_to_list_empty. constructor.
  - intros fd Hfd. simpl in Hfd. by apply not_elem_of_empty in Hfd.
  - intros n pin Hpin. simpl in Hpin. by rewrite lookup_empty in Hpin.
Qed.

(** [alloc_pin] keeps the registry and the poller consistent, whether it
    returns or raises. *)
Lemma alloc_pin_consistent number direction callback edge active_low m :
  consistent m →
  consistent (run (alloc_pin number direction callback edge active_low) m).
Proof.
  intros (Hkeys & Huniq & Hpoll & Hpins).
  pose proof (alloc_pin_keys m number direction callback edge active_low Hkeys)
    as [Hkeys' _].
  unfold run in *.
  destruct (alloc_pin number direction callback edge active_low m)
    as [r m'] eqn:E.
  pose proof (alloc_pin_ctl _ _ _ _ _ _ _ _ E) as Hctl.
  pose proof (alloc_pin_poller _ _ _ _ _ _ _ _ E) as Hp.
  simpl in *. destruct r as [pin|e].
  - destruct Hctl as (Hctl & Hnone & Hn & Hd).
    destruct Hp as (Hfd & Hnext & Hreg).
    assert (∀ q, q ∈ values (_allocated_pins (ctl m)) →
                 Pin_fileno q < next_fd (env m)) as Hold.
    { intros q [k Hk]%elem_of_values. by apply (Hpins k q). }
    assert (Pin_fileno pin ∉ registered (env m)) as Hfresh.
    { intros Hin%Hpoll. lia. }
    split_and!; [done| | |].
    + unfold fd_unique. rewrite Hctl. simpl.
      rewrite (values_insert _ _ _ Hnone), fmap_cons.
      apply NoDup_cons. split; [|done].
      intros (q & Hq & Hin)%list_elem_of_fmap. apply Hold in Hin. lia.
    + intros fd. rewrite Hreg, Hnext.
      destruct (is_INPUT direction).
      * intros [->%elem_of_singleton|Hin%Hpoll]%elem_of_union; lia.
      * intros Hin%Hpoll. lia.
    + intros k q. rewrite Hctl. simpl. rewrite lookup_insert.
      case_decide as Hk.
      * intros [= <-]. split; [lia|]. rewrite Hreg, Hd.
        destruct (is_INPUT direction) eqn:Hdir.
        -- apply is_INPUT_true in Hdir. split; [done|].
           intros _. apply elem_of_union. left. by apply elem_of_singleton.
        -- split; [done|]. intros Hin%is_INPUT_true. congruence.
      * intros Hq. destruct (Hpins k q Hq) as [Hlt Hiff].
        split; [lia|]. rewrite Hreg, <- Hiff.
        destruct (is_INPUT direction); [|done].
        rewrite elem_of_union, elem_of_singleton. split; [|tauto].
        intros [Heq|Hin]; [lia|done].
  - destruct Hp as [Hreg Hnext]. unfold consistent. rewrite Hctl.
    split_and!; [done|done| |].
    + intros fd. rewrite Hreg. intros Hin%Hpoll. lia.
    + intros k q Hq. destruct (Hpins k q Hq) as [Hlt Hiff].
      rewrite Hreg. split; [lia|done].
Qed.

(** So does [dealloc_pin]. *)
Lemma dealloc_pin_consistent number m :
  consistent m → consistent (run (dealloc_pin number) m).
Proof.
  intros (Hkeys & Huniq & Hpoll & Hpins).
  pose proof (dealloc_pin_keys m number Hkeys) as [Hkeys' _].
  unfold run in *.
  destruct (dealloc_pin number m) as [r m'] eqn:E.
  pose proof (dealloc_pin_ctl _ _ _ _ E) as Hctl.
  pose proof (dealloc_pin_poller _ _ _ _ E) as [Hnext Hp].
  simpl in *. destruct r as [u|e].
  - destruct Hctl as [Hctl _]. destruct Hp as (pin & Hpin & Hreg).
    pose proof Huniq as Hnd. unfold fd_unique in Hnd.
    rewrite <- (values_delete _ _ _ Hpin), fmap_cons in Hnd.
    apply NoDup_cons in Hnd as [Hnotin Hnd].
    split_and!; [done| | |].
    + unfold fd_unique. by rewrite Hctl.
    + intros fd. rewrite Hreg, Hnext. intros Hin. apply Hpoll.
      destruct (is_INPUT (_direction pin)); [|done].
      by apply elem_of_difference in Hin as [Hin _].
    + intros k q. rewrite Hctl. simpl. rewrite lookup_delete.
      case_decide as Hk; [done|]. intros Hq.
      destruct (Hpins k q Hq) as [Hlt Hiff].
      split; [lia|]. rewrite Hreg, <- Hiff.
      destruct (is_INPUT (_direction pin)); [|done].
      rewrite elem_of_difference, elem_of_singleton. split; [tauto|].
      intros Hin. split; [done|]. intros Heq. apply Hnotin.
      rewrite <- Heq. apply list_elem_of_fmap_2. apply elem_of_values.
      exists k. by rewrite lookup_delete_ne.
  - unfold consistent. rewrite Hctl. split_and!; [done|done| |].
    + intros fd. rewrite Hp, Hnext. apply Hpoll.
    + intros k q Hq. rewrite Hp, Hnext. exact (Hpins k q Hq).
Qed.

(** And [stop], which deallocates pin after pin. *)
Lemma stop_consistent m : consistent m → consistent (run stop m).
Proof.
  intros Hc. unfold run. destruct (stop m) as [r m'] eqn:E. simpl.
  unfold stop in E. binds_inv; try discriminate.
  inversion Hrun; subst; clear Hrun.
  inversion Hrun0; subst; clear Hrun0.
  inversion Hrun1; subst; clear Hrun1.
  eapply (for_each_inv consistent); [| |exact E].
  - intros pin mx rx mx' Hx Hd.
    pose proof (dealloc_pin_consistent (_number pin) mx Hx) as Hy.
    unfold run in Hy. by rewrite Hd in Hy.
  - exact Hc.
Qed.

(** ** The board with pins 4 and 17 *)

Lemma poller_ok_elements w :
  Forall (λ fd, fd < next_fd w) (elements (registered w)) → poller_ok w.
Proof.
  intros H fd Hfd. rewrite Forall_forall in H. by apply H, elem_of_elements.
Qed.

Lemma calm_Forall w (l : list Pin) :
  Forall (λ pin, faults w (OpRead (f_name (_fd pin))) = None
                 ∧ ∀ f state, _callback pin = Some f →
                              f (_number pin) state = None) l →
  calm w l.
Proof. intros H pin Hpin. rewrite Forall_forall in H. by apply H. Qed.

(** The three machines are reached by [alloc_pin] from start-up, so they
    are consistent. *)
Lemma m_boot_consistent : consistent m_boot.
Proof. apply consistent_boot. Qed.

Lemma m17_consistent : consistent m17.
Proof. apply alloc_pin_consistent, m_boot_consistent. Qed.

Lemma m_two_consistent : consistent m_two.
Proof. apply alloc_pin_consistent, m17_consistent. Qed.

Lemma m17_calm : calm (env m17) (values (_allocated_pins (ctl m17))).
Proof.
  apply calm_Forall. repeat constructor. by intros f state [= <-].
Qed.

Lemma consistent_keys_ok m : consistent m → keys_ok (ctl m).
Proof. by intros (? & _). Qed.

Lemma consistent_fd_unique m : consistent m → fd_unique (ctl m).
Proof. by intros (_ & ? & _). Qed.

Lemma consistent_poller_ok m : consistent m → poller_ok (env m).
Proof. by intros (_ & _ & ? & _). Qed.

(** In a consistent machine the descriptor of an allocated input pin is
    armed. *)
Lemma consistent_registered m number pin :
  consistent m →
  _allocated_pins (ctl m) !! number = Some pin →
  _direction pin = INPUT →
  Pin_fileno pin ∈ registered (env m).
Proof.
  intros (_ & _ & _ & Hpins) Hpin Hdir. by apply (Hpins number pin Hpin).
Qed.

(** * The claims *)

(** ** C1 *)

(** C1.  On the fresh registry of a board with pins 4 and 17, where pin 5
    is not allocated, [get_pin 5] raises [KeyError 5], which is not the
    [NotAllocated] exception that [set_pin 5] raises there. *)
Theorem get_pin_unallocated_raises_KeyError :
  get_pin 5 (boot [4; 17]) = (Raise (KeyError 5), boot [4; 17])
  ∧ set_pin 5 (boot [4; 17]) = (Raise (NotAllocated 5), boot [4; 17])
  ∧ KeyError 5 ≠ NotAllocated 5.
Proof.
  split_and!.
  - by apply get_pin_not_allocated.
  - by apply guarded_accessors_not_allocated.
  - discriminate.
Qed.

(** ** C2 *)




(** ** C3 *)

(** C3, as stated, fails on a pin whose callback raises: the exception
    comes out of [Pin.changed]. *)
Lemma Pin_changed_lets_exception_through :
  _callback pin4 = Some noisy
  ∧ (Pin_changed pin4 1 m_boot).1 = Raise (Exception "boom").
Proof. split; reflexivity. Qed.

(** C3 (as the code has it).  [Pin.changed] is a no-op when no callback is
    set; otherwise it calls the callback once with [(number, state)], and
    returns when the callback returns, and raises what the callback
    raises. *)
Theorem Pin_changed_propagates (p : Pin) (state : Z) (m : Machine) :
  (_callback p = None → Pin_changed p state m = (Ok tt, m))
  ∧ (∀ f, _callback p = Some f → f (_number p) state = None →
       Pin_changed p state m
       = (Ok tt, mkMachine (ctl m)
                   (log (EvCallback (_number p) state) (env m))))
  ∧ (∀ f e, _callback p = Some f → f (_number p) state = Some e →
       Pin_changed p state m
       = (Raise e, mkMachine (ctl m)
                     (log (EvCallback (_number p) state) (env m)))).
Proof.
  unfold Pin_changed, call. split_and!.
  - by intros ->.
  - by intros f -> ->.
  - by intros f e -> ->.
Qed.

(** C3 on the board: a callback that returns, and one that raises. *)
Lemma Pin_changed_propagates_witness :
  Pin_changed pin17 1 m_boot
  = (Ok tt, mkMachine (ctl m_boot) (log (EvCallback 17 1) (env m_boot)))
  ∧ Pin_changed pin4 1 m_boot
    = (Raise (Exception "boom"),
       mkMachine (ctl m_boot) (log (EvCallback 4 1) (env m_boot))).
Proof.
  split.
  - apply (proj1 (proj2 (Pin_changed_propagates pin17 1 m_boot)) quiet);
      reflexivity.
  - apply (proj2 (proj2 (Pin_changed_propagates pin4 1 m_boot)) noisy);
      reflexivity.
Defined.

(** ** C4 *)




(** The scenario of the specification: one edge event on the descriptor of
    pin 17 calls its callback exactly once, with [(17, value read)]. *)
Example pin17_event_calls_back_once :
  effects_of (_poll_queue_event [(3, EPOLLPRI)]) m17
  = [EvRead (Value 17); EvCallback 17 0]
  ∧ calls_of 17 (effects_of (_poll_queue_event [(3, EPOLLPRI)]) m17) = 1%nat.
Proof. split; reflexivity. Qed.

(** ** C5 *)



(** ** C6 *)

(** C6.  On a valid, unallocated pin number, with the other arguments
    valid and an environment that refuses nothing, [alloc_pin] raises the
    invalid-polarity exception for [active_low = 2] and returns the pin,
    now in the dictionary, for [active_low = 1] and for [active_low = 0]. *)
Theorem alloc_pin_active_low
    number direction callback edge (m : Machine) :
  number ∈ _available_pins (ctl m) →
  _allocated_pins (ctl m) !! number = None →
  direction ∈ DIRECTIONS →
  (is_Some callback → edge ∈ Some <$> EDGES) →
  no_fault (env m) →
  poller_ok (env m) →
  (∃ m', alloc_pin number direction callback edge 2 m
         = (Raise InvalidPolarity, m'))
  ∧ (∃ pin m', alloc_pin number direction callback edge 1 m = (Ok pin, m')
       ∧ _allocated_pins (ctl m') !! number = Some pin)
  ∧ (∃ pin m', alloc_pin number direction callback edge 0 m = (Ok pin, m')
       ∧ _allocated_pins (ctl m') !! number = Some pin).
Proof.
  intros Hav Hnone Hdir Hedge Hnf Hpoll. split_and!.
  - destruct (alloc_pin_outcome number direction callback edge 2 m)
      as (pin & m' & Hrun & _); [done..|].
    rewrite bool_decide_eq_false_2 in Hrun; [eauto|].
    unfold ACTIVE_LOW_MODES, ACTIVE_LOW_ON, ACTIVE_LOW_OFF.
    rewrite !elem_of_cons, elem_of_nil. lia.
  - destruct (alloc_pin_outcome number direction callback edge 1 m)
      as (pin & m' & Hrun & _ & _ & _ & _ & Hmap); [done..|].
    assert (1 ∈ ACTIVE_LOW_MODES) as Hin by (apply elem_of_cons; by left).
    rewrite (bool_decide_eq_true_2 _ Hin) in Hrun.
    exists pin, m'. split; [done|]. rewrite (Hmap Hin).
    apply lookup_insert_eq.
  - destruct (alloc_pin_outcome number direction callback edge 0 m)
      as (pin & m' & Hrun & _ & _ & _ & _ & Hmap); [done..|].
    assert (0 ∈ ACTIVE_LOW_MODES) as Hin
      by (apply elem_of_cons; right; apply elem_of_cons; by left).
    rewrite (bool_decide_eq_true_2 _ Hin) in Hrun.
    exists pin, m'. split; [done|]. rewrite (Hmap Hin).
    apply lookup_insert_eq.
Qed.

(** C6 on the board: pin 17 with the three polarity values. *)
Lemma alloc_pin_active_low_witness :
  (∃ m', alloc_pin 17 INPUT (Some quiet) (Some BOTH) 2 m_boot
         = (Raise InvalidPolarity, m'))
  ∧ (∃ pin m', alloc_pin 17 INPUT (Some quiet) (Some BOTH) 1 m_boot
               = (Ok pin, m')
       ∧ _allocated_pins (ctl m') !! 17 = Some pin)
  ∧ (∃ pin m', alloc_pin 17 INPUT (Some quiet) (Some BOTH) 0 m_boot
               = (Ok pin, m')
       ∧ _allocated_pins (ctl m') !! 17 = Some pin).
Proof.
  apply (alloc_pin_active_low 17 INPUT (Some quiet) (Some BOTH) m_boot).
  - apply elem_of_cons. right. apply elem_of_cons. by left.
  - reflexivity.
  - apply elem_of_cons. by left.
  - intros _. apply elem_of_cons. right. apply elem_of_cons. right.
    apply elem_of_cons. by left.
  - intros op. reflexivity.
  - exact (consistent_poller_ok _ m_boot_consistent).
Defined.

(** ** C7 *)

(** C7.  Once [dealloc_pin] has returned on an allocated number, the number
    is no longer a key of the dictionary, and an [alloc_pin] of the same
    number with valid arguments, in an environment that refuses nothing,
    returns a pin and stores it under that number. *)
Theorem dealloc_pin_then_alloc_pin
    (number : Z) (old : Pin) (m m' : Machine) :
  _allocated_pins (ctl m) !! number = Some old →
  dealloc_pin number m = (Ok tt, m') →
  _allocated_pins (ctl m') !! number = None
  ∧ ∀ direction callback edge active_low,
      number ∈ _available_pins (ctl m') →
      direction ∈ DIRECTIONS →
      (is_Some callback → edge ∈ Some <$> EDGES) →
      active_low ∈ ACTIVE_LOW_MODES →
      no_fault (env m') →
      poller_ok (env m') →
      ∃ pin m'',
        alloc_pin number direction callback edge active_low m' = (Ok pin, m'')
        ∧ _allocated_pins (ctl m'') !! number = Some pin.
Proof.
  intros Hold Hrun. apply dealloc_pin_ctl in Hrun as [Hctl _].
  assert (_allocated_pins (ctl m') !! number = None) as Hnone.
  { rewrite Hctl. simpl. apply lookup_delete_eq. }
  split; [done|].
  intros direction callback edge active_low Hav Hdir Hedge Hmode Hnf Hpoll.
  destruct (alloc_pin_outcome number direction callback edge active_low m')
    as (pin & m'' & Hrun & _ & _ & _ & _ & Hmap); [done..|].
  rewrite (bool_decide_eq_true_2 _ Hmode) in Hrun.
  exists pin, m''. split; [done|]. rewrite (Hmap Hmode).
  apply lookup_insert_eq.
Qed.

(** C7 on the board: pin 17 deallocated, then allocated again as an
    output. *)
Lemma dealloc_pin_then_alloc_pin_witness :
  _allocated_pins (ctl (run (dealloc_pin 17) m17)) !! 17 = None
  ∧ ∃ pin m'',
      alloc_pin 17 OUTPUT None None 0 (run (dealloc_pin 17) m17)
      = (Ok pin, m'')
      ∧ _allocated_pins (ctl m'') !! 17 = Some pin.
Proof.
  destruct (dealloc_pin_then_alloc_pin 17 pin17 m17 (run (dealloc_pin 17) m17))
    as [Hgone Hagain]; [reflexivity | reflexivity |].
  split; [exact Hgone|].
  apply (Hagain OUTPUT None None 0).
  - apply elem_of_cons. right. apply elem_of_cons. by left.
  - apply elem_of_cons. right. apply elem_of_cons. by left.
  - intros [f Hf]. discriminate.
  - apply elem_of_cons. right. apply elem_of_cons. by left.
  - intros op. reflexivity.
  - apply poller_ok_elements. vm_compute. constructor.
Defined.

(** ** C8 *)

(** C8.  When [alloc_pin] raises, for whatever reason, the dictionary of
    allocated pins is the one it was called with. *)
Theorem alloc_pin_failure_keeps_registry
    number direction callback edge active_low (m m' : Machine) (e : PyExc) :
  alloc_pin number direction callback edge active_low m = (Raise e, m') →
  _allocated_pins (ctl m') = _allocated_pins (ctl m).
Proof. intros H. apply alloc_pin_ctl in H. by rewrite H. Qed.

(** C8 on the board: an allocation that fails in [Pin.__init__]. *)
Lemma alloc_pin_failure_keeps_registry_witness :
  alloc_pin 17 INPUT None None 2 m_boot
  = (Raise InvalidPolarity, run (alloc_pin 17 INPUT None None 2) m_boot)
  ∧ _allocated_pins (ctl (run (alloc_pin 17 INPUT None None 2) m_boot))
    = _allocated_pins (ctl m_boot).
Proof.
  assert (alloc_pin 17 INPUT None None 2 m_boot
          = (Raise InvalidPolarity, run (alloc_pin 17 INPUT None None 2) m_boot))
    as Hrun by reflexivity.
  split; [exact Hrun|].
  exact (alloc_pin_failure_keeps_registry 17 INPUT None None 2 m_boot _
           InvalidPolarity Hrun).
Defined.

(** ** C9 *)

(** C9.  The registry operations [alloc_pin], [dealloc_pin] and [stop],
    whether they return or raise, preserve the invariant that every pin of
    [_allocated_pins] is stored under its own number, and a pin that stays
    in the dictionary keeps its number and its direction. *)
Theorem registry_keys_invariant (m : Machine) :
  keys_ok (ctl m) →
  (∀ number direction callback edge active_low,
     let m' := run (alloc_pin number direction callback edge active_low) m in
     keys_ok (ctl m') ∧ attrs_kept (ctl m) (ctl m'))
  ∧ (∀ number,
       let m' := run (dealloc_pin number) m in
       keys_ok (ctl m') ∧ attrs_kept (ctl m) (ctl m'))
  ∧ (let m' := run stop m in
     keys_ok (ctl m') ∧ attrs_kept (ctl m) (ctl m')).
Proof.
  intros Hok. split_and!.
  - intros. by apply alloc_pin_keys.
  - intros. by apply dealloc_pin_keys.
  - by apply stop_keys.
Qed.

(** C9 on the board, with pin 17 allocated. *)
Lemma registry_keys_invariant_witness :
  keys_ok (ctl (run (alloc_pin 4 OUTPUT None None 0) m17))
  ∧ keys_ok (ctl (run (dealloc_pin 17) m17))
  ∧ keys_ok (ctl (run stop m17)).
Proof.
  destruct (registry_keys_invariant m17) as (Ha & Hd & Hs).
  - exact (consistent_keys_ok _ m17_consistent).
  - split_and!.
    + apply (Ha 4 OUTPUT None None 0).
    + apply (Hd 17).
    + apply Hs.
Defined.

(** ** C10 *)

(** C10.  On a valid, unallocated pin number, a direction outside
    [DIRECTIONS] makes [alloc_pin] raise with the controller and the whole
    environment untouched: nothing was written to the export endpoint (the
    trace and the exported set are the same) and no pin was built. *)
Theorem alloc_pin_bad_direction
    number direction callback edge active_low (m : Machine) :
  number ∈ _available_pins (ctl m) →
  _allocated_pins (ctl m) !! number = None →
  direction ∉ DIRECTIONS →
  alloc_pin number direction callback edge active_low m
  = (Raise (Exception ("Pin direction " +:+ direction +:+ " not in "
                       +:+ py_tuple DIRECTIONS)), m).
Proof.
  intros Hav Hnone Hdir. unfold alloc_pin.
  rewrite (bind_Ok _ _ _ _ _ (check_pin_validity_ok _ _ Hav Hnone)).
  apply bind_Raise. by rewrite bool_decide_eq_false_2.
Qed.

(** C10 on the board: a direction that is neither ['in'] nor ['out']. *)
Lemma alloc_pin_bad_direction_witness :
  alloc_pin 17 "sideways" None None 0 m_boot
  = (Raise (Exception "Pin direction sideways not in ('in', 'out')"), m_boot).
Proof.
  apply (alloc_pin_bad_direction 17 "sideways" None None 0 m_boot).
  - apply elem_of_cons. right. apply elem_of_cons. by left.
  - reflexivity.
  - intros [H|[H|H]%elem_of_cons]%elem_of_cons;
      [discriminate | discriminate | by apply elem_of_nil in H].
Defined.

(** * Further properties of the module *)

(** ** Refusals of [alloc_pin] before any input or output *)

(** X1.  A pin number outside [available_pins] makes [alloc_pin] raise the
    out-of-range exception and leaves the machine as it was, also when the
    number is allocated. *)
Theorem alloc_pin_out_of_range
    number direction callback edge active_low (m : Machine) :
  number ∉ _available_pins (ctl m) →
  alloc_pin number direction callback edge active_low m
  = (Raise OutOfRange, m).
Proof.
  intros Hav. unfold alloc_pin. apply bind_Raise.
  unfold _check_pin_validity. rewrite (bind_Ok _ _ _ _ _ (get_ctl_run m)).
  apply bind_Raise. by rewrite bool_decide_eq_false_2.
Qed.

(** X1 on the board: pin 5 is not available. *)
Lemma alloc_pin_out_of_range_witness :
  alloc_pin 5 INPUT None None 0 m17 = (Raise OutOfRange, m17).
Proof.
  apply (alloc_pin_out_of_range 5 INPUT None None 0 m17).
  intros [H|[H|H]%elem_of_cons]%elem_of_cons;
    [discriminate | discriminate | by apply elem_of_nil in H].
Defined.

(** X2.  An available pin number that is already allocated makes
    [alloc_pin] raise the already-allocated exception and leaves the
    machine as it was, whatever the other arguments. *)
Theorem alloc_pin_twice
    number direction callback edge active_low (pin : Pin) (m : Machine) :
  number ∈ _available_pins (ctl m) →
  _allocated_pins (ctl m) !! number = Some pin →
  alloc_pin number direction callback edge active_low m
  = (Raise AlreadyAllocated, m).
Proof.
  intros Hav Hpin. unfold alloc_pin. apply bind_Raise.
  unfold _check_pin_validity. rewrite (bind_Ok _ _ _ _ _ (get_ctl_run m)).
  rewrite (bool_decide_eq_true_2 _ Hav). simpl negb.
  rewrite (bind_Ok _ _ _ _ _ (when_false _ _)).
  unfold allocated. rewrite bool_decide_eq_true_2 by eauto. reflexivity.
Qed.

(** X2 on the board: pin 17 a second time. *)
Lemma alloc_pin_twice_witness :
  alloc_pin 17 OUTPUT None None 0 m17 = (Raise AlreadyAllocated, m17).
Proof.
  apply (alloc_pin_twice 17 OUTPUT None None 0 pin17 m17).
  - apply elem_of_cons. right. apply elem_of_cons. by left.
  - reflexivity.
Defined.

(** X3.  With a callback and an edge outside [EDGES] ([None] included), a
    valid free number and a valid direction, [alloc_pin] raises the
    edge exception and leaves the machine as it was: nothing is exported
    and no file is opened. *)
Theorem alloc_pin_callback_needs_edge
    number direction (f : Callback) edge active_low (m : Machine) :
  number ∈ _available_pins (ctl m) →
  _allocated_pins (ctl m) !! number = None →
  direction ∈ DIRECTIONS →
  edge ∉ Some <$> EDGES →
  alloc_pin number direction (Some f) edge active_low m
  = (Raise (Exception ("Pin edge " +:+ py_str edge +:+ " not in "
                       +:+ py_tuple EDGES)), m).
Proof.
  intros Hav Hnone Hdir Hedge. unfold alloc_pin.
  rewrite (bind_Ok _ _ _ _ _ (check_pin_validity_ok _ _ Hav Hnone)).
  rewrite (bool_decide_eq_true_2 _ Hdir). simpl negb.
  rewrite (bind_Ok _ _ _ _ _ (when_false _ _)).
  apply bind_Raise.
  rewrite bool_decide_eq_true_2 by eauto.
  by rewrite bool_decide_eq_false_2.
Qed.

(** X3 on the board: a callback without an edge. *)
Lemma alloc_pin_callback_needs_edge_witness :
  alloc_pin 4 INPUT (Some quiet) None 0 m17
  = (Raise (Exception "Pin edge None not in ('rising', 'falling', 'both')"),
     m17).
Proof.
  apply (alloc_pin_callback_needs_edge 4 INPUT quiet None 0 m17).
  - apply elem_of_cons. by left.
  - reflexivity.
  - apply elem_of_cons. by left.
  - intros (x & [=] & _)%list_elem_of_fmap.
Defined.

(** ** What a successful allocation performs *)

Lemma Pin_init_trace number direction callback edge active_low m :
  no_fault (env m) →
  (is_Some callback → truthy edge = true) →
  active_low ∈ ACTIVE_LOW_MODES →
  ∃ m', Pin_init number direction callback edge active_low m
        = (Ok (Pin_built number direction callback active_low m), m')
    ∧ ctl m' = ctl m
    ∧ faults (env m') = faults (env m)
    ∧ registered (env m') = registered (env m)
    ∧ exported (env m') = exported (env m)
    ∧ level (env m') = level (env m)
    ∧ next_fd (env m') = next_fd (env m) + 1
    ∧ trace (env m')
      = (trace (env m)
         ++ Pin_init_events number direction edge active_low
                            (next_fd (env m)))%list.
Proof.
  intros Hnf Hcb Hmode. unfold Pin_init, Pin_init_events.
  step open_file_ok.
  assert (bool_decide (is_Some callback) && negb (truthy edge) = false)
    as ->.
  { case_bool_decide as Hc; [|done]. by rewrite (Hcb Hc). }
  rewrite (bind_Ok _ _ _ _ _ (when_false _ _)).
  step write_file_ok.
  rewrite (bool_decide_eq_true_2 _ Hmode). simpl negb.
  destruct (truthy edge); simpl when.
  - step write_file_ok.
    destruct (Z.eqb_spec active_low 0) as [->|Hal]; simpl when.
    + rewrite (bind_Ok _ _ _ _ _ (ret_run tt _)).
      eexists. split; [reflexivity|]. simpl.
      split_and!; try done. by rewrite <- !app_assoc.
    + rewrite bind_bind. rewrite (bind_Ok _ _ _ _ _ (ret_run tt _)).
      step write_file_ok.
      eexists. split; [reflexivity|]. simpl.
      split_and!; try done. by rewrite <- !app_assoc.
  - rewrite (bind_Ok _ _ _ _ _ (ret_run tt _)).
    destruct (Z.eqb_spec active_low 0) as [->|Hal]; simpl when.
    + rewrite (bind_Ok _ _ _ _ _ (ret_run tt _)).
      eexists. split; [reflexivity|]. simpl.
      split_and!; try done. by rewrite <- !app_assoc.
    + rewrite bind_bind. rewrite (bind_Ok _ _ _ _ _ (ret_run tt _)).
      step write_file_ok.
      eexists. split; [reflexivity|]. simpl.
      split_and!; try done. by rewrite <- !app_assoc.
Qed.

Lemma export_if_needed_trace number m :
  faults (env m) (OpWrite Export) = None →
  ∃ m1, when (negb (bool_decide (number ∈ exported (env m))))
             (write_file Export (TokNum number)) m = (Ok tt, m1)
    ∧ ctl m1 = ctl m ∧ faults (env m1) = faults (env m)
    ∧ registered (env m1) = registered (env m)
    ∧ next_fd (env m1) = next_fd (env m)
    ∧ level (env m1) = level (env m)
    ∧ number ∈ exported (env m1)
    ∧ exported (env m1) = {[number]} ∪ exported (env m)
    ∧ trace (env m1)
      = (trace (env m)
         ++ if bool_decide (number ∈ exported (env m)) then []
            else [EvWrite Export (pretty number)])%list.
Proof.
  intros Hf. case_bool_decide as Hex; simpl when.
  - exists m. rewrite app_nil_r. split_and!; try done.
    apply set_eq. intros x. rewrite elem_of_union, elem_of_singleton.
    split; [tauto|]. intros [->|?]; done.
  - rewrite (write_file_ok _ _ _ Hf). eexists. split; [reflexivity|].
    simpl. split_and!; try done.
    apply elem_of_union. left. by apply elem_of_singleton.
Qed.

Lemma alloc_pin_run number direction callback edge active_low m :
  valid_args m number direction callback edge active_low →
  no_fault (env m) →
  poller_ok (env m) →
  ∃ m', alloc_pin number direction callback edge active_low m
        = (Ok (Pin_built number direction callback active_low m), m')
    ∧ ctl m' = set_allocated
                 (<[number := Pin_built number direction callback active_low m]>
                    (_allocated_pins (ctl m))) (ctl m)
    ∧ faults (env m') = faults (env m)
    ∧ level (env m') = level (env m)
    ∧ exported (env m') = {[number]} ∪ exported (env m)
    ∧ registered (env m')
      = (if is_INPUT direction
         then {[next_fd (env m)]} ∪ registered (env m)
         else registered (env m))
    ∧ next_fd (env m') = next_fd (env m) + 1
    ∧ trace (env m')
      = (trace (env m)
         ++ alloc_pin_events (bool_decide (number ∈ exported (env m)))
              number direction edge active_low (next_fd (env m)))%list.
Proof.
  intros (Hav & Hnone & Hdir & Hedge & Hmode) Hnf Hpoll.
  unfold alloc_pin, alloc_pin_events.
  rewrite (bind_Ok _ _ _ _ _ (check_pin_validity_ok _ _ Hav Hnone)).
  rewrite (bool_decide_eq_true_2 _ Hdir). simpl negb.
  rewrite (bind_Ok _ _ _ _ _ (when_false _ _)).
  match goal with
  | |- context [when (?b1 && negb ?b2)] =>
      assert (b1 && negb b2 = false) as ->
  end.
  { case_bool_decide as Hc; [|done].
    by rewrite (bool_decide_eq_true_2 _ (Hedge Hc)). }
  rewrite (bind_Ok _ _ _ _ _ (when_false _ _)).
  unfold _check_pin_already_exported.
  rewrite (bind_Ok _ _ _ _ _ (path_isdir_run _ _)).
  destruct (export_if_needed_trace number m (Hnf _))
    as (m1 & Hexp & Hc1 & Hf1 & Hr1 & Hn1 & Hl1 & Hin1 & Hx1 & Ht1).
  rewrite (bind_Ok _ _ _ _ _ Hexp).
  destruct (Pin_init_trace number direction callback edge active_low m1)
    as (m2 & Hinit & Hc2 & Hf2 & Hr2 & Hx2 & Hl2 & Hn2 & Ht2).
  { intros op. rewrite Hf1. apply Hnf. }
  { intros Hc. by apply truthy_EDGES, Hedge. }
  { done. }
  assert (Pin_built number direction callback active_low m1
          = Pin_built number direction callback active_low m) as Hpin.
  { unfold Pin_built. by rewrite Hn1. }
  rewrite Hpin in Hinit. rewrite (bind_Ok _ _ _ _ _ Hinit).
  destruct (is_INPUT direction); simpl when.
  - unfold _poll_queue_register_pin.
    assert (Pin_fileno (Pin_built number direction callback active_low m)
            = next_fd (env m)) as Hfd by reflexivity.
    assert (faults (env m2) (OpRegister (next_fd (env m))) = None) as Hreg.
    { rewrite Hf2, Hf1. apply Hnf. }
    assert (next_fd (env m) ∉ registered (env m2)) as Hfresh.
    { rewrite Hr2, Hr1. intros Hin%Hpoll. lia. }
    rewrite Hfd.
    rewrite (bind_Ok _ _ _ _ _ (epoll_register_ok _ _ _ Hreg Hfresh)).
    eexists. split; [reflexivity|]. simpl.
    rewrite Hc2, Hc1, Hf2, Hf1, Hl2, Hl1, Hx2, Hx1, Hr2, Hr1, Hn2, Hn1.
    split_and!; try done.
    rewrite Ht2, Ht1, Hn1. unfold Pin_init_events.
    by rewrite <- !app_assoc.
  - rewrite (bind_Ok _ _ _ _ _ (ret_run tt _)).
    eexists. split; [reflexivity|]. simpl.
    rewrite Hc2, Hc1, Hf2, Hf1, Hl2, Hl1, Hx2, Hx1, Hr2, Hr1, Hn2, Hn1.
    split_and!; try done.
    rewrite Ht2, Ht1, Hn1. unfold Pin_init_events.
    by rewrite !app_nil_r, <- !app_assoc.
Qed.



(** ** Which exceptions come out of where *)

Lemma syscall_raise_inv {A} op (k : World → result A * World) m e m' :
  syscall op k m = (Raise e, m') →
  (is_Some (faults (env m) op) ∧ is_IOError e ∧ m' = m)
  ∨ (faults (env m) op = None
     ∧ ∃ w, k (env m) = (Raise e, w) ∧ m' = mkMachine (ctl m) w).
Proof.
  unfold syscall. destruct (faults (env m) op) as [errno|].
  - intros [= <- <-]. left. split_and!; [by eexists| by eexists |done].
  - destruct (k (env m)) as [r w] eqn:Hk. intros [= -> <-]. right. eauto.
Qed.

Lemma write_file_raise ep t m e m' :
  write_file ep t m = (Raise e, m') → is_IOError e ∧ m' = m.
Proof.
  intros [(_ & H & ->)|(_ & w & [=] & _)]%syscall_raise_inv. done.
Qed.

Lemma read_file_raise ep m e m' :
  read_file ep m = (Raise e, m') → is_IOError e ∧ m' = m.
Proof.
  intros [(_ & H & ->)|(_ & w & [=] & _)]%syscall_raise_inv. done.
Qed.

Lemma open_file_raise ep m e m' :
  open_file ep m = (Raise e, m') → is_IOError e ∧ m' = m.
Proof.
  intros [(_ & H & ->)|(_ & w & [=] & _)]%syscall_raise_inv. done.
Qed.

Lemma epoll_register_raise fd mask m e m' :
  epoll_register fd mask m = (Raise e, m') → is_IOError e ∧ m' = m.
Proof.
  intros [(_ & H & ->)|(_ & w & Hk & ->)]%syscall_raise_inv; [done|].
  case_decide; inversion Hk; subst. split; [by eexists|by destruct m].
Qed.

Lemma epoll_unregister_raise fd m e m' :
  epoll_unregister fd m = (Raise e, m') → is_IOError e ∧ m' = m.
Proof.
  intros [(_ & H & ->)|(_ & w & Hk & ->)]%syscall_raise_inv; [done|].
  case_decide; inversion Hk; subst. split; [by eexists|by destruct m].
Qed.

Lemma when_raise_inv (b : bool) e0 m (r : result unit) m' :
  when b (raise e0) m = (r, m') →
  m' = m ∧ (if b then r = Raise e0 else r = Ok tt).
Proof. destruct b; simpl; by intros [= <- <-]. Qed.

Lemma when_inv (b : bool) c m (r : result unit) m' :
  when b c m = (r, m') →
  (b = true ∧ c m = (r, m')) ∨ (b = false ∧ r = Ok tt ∧ m' = m).
Proof. destruct b; simpl; [by left|]. intros [= <- <-]. by right. Qed.

Lemma check_pin_validity_raise number m e m' :
  _check_pin_validity number m = (Raise e, m') →
  m' = m
  ∧ (((number ∉ _available_pins (ctl m)) ∧ e = OutOfRange)
     ∨ ((number ∈ _available_pins (ctl m))
        ∧ is_Some (_allocated_pins (ctl m) !! number)
        ∧ e = AlreadyAllocated)).
Proof.
  unfold _check_pin_validity, bind, get_ctl, when, allocated.
  case_bool_decide as Hav; simpl.
  - case_bool_decide as Hal; simpl; [|discriminate].
    intros [= <- <-]. split; [done|]. right. done.
  - intros [= <- <-]. split; [done|]. left. done.
Qed.

(** The exceptions of [Pin.__init__]: a refused system call, the missing
    edge of a callback, or the invalid polarity. *)
Lemma Pin_init_raise number direction callback edge active_low m e m' :
  Pin_init number direction callback edge active_low m = (Raise e, m') →
  is_IOError e
  ∨ (e = MissingEdge ∧ is_Some callback ∧ truthy edge = false)
  ∨ (e = InvalidPolarity ∧ active_low ∉ ACTIVE_LOW_MODES).
Proof.
  unfold Pin_init. intros H. binds_inv; try discriminate.
  all: injection H as ->.
  - apply when_inv in Hrun3 as [[_ H]|(_ & [=] & _)].
    bind_inv H.
    + apply write_file_raise in H as [H _]. by left.
    + injection H as ->. apply when_raise_inv in Hrun3 as [_ Hb].
      case_bool_decide as Hmode; simpl in Hb; [discriminate|].
      injection Hb as ->. right. right. done.
  - apply when_inv in Hrun2 as [[_ H]|(_ & [=] & _)].
    apply write_file_raise in H as [H _]. by left.
  - apply write_file_raise in Hrun1 as [H _]. by left.
  - apply when_raise_inv in Hrun0 as [_ Hb].
    destruct (bool_decide (is_Some callback)) eqn:Hc; simpl in Hb;
      [|discriminate].
    destruct (truthy edge) eqn:Ht; simpl in Hb; [discriminate|].
    injection Hb as ->. right. left.
    split_and!; [done| |done]. by apply bool_decide_eq_true_1 in Hc.
  - apply open_file_raise in Hrun as [H _]. by left.
Qed.

(** Two exceptions with different constructors or messages differ. *)
Ltac distinct_exc :=
  let Heq := fresh "Heq" in
  intros Heq;
  unfold MissingEdge, OutOfRange, AlreadyAllocated, InvalidPolarity in Heq;
  simpl in Heq; discriminate Heq.

(** X5.  Whatever [alloc_pin] raises is one of: the out-of-range
    exception, for a number that is not available; the already-allocated
    exception, for an allocated number; the direction exception, for a
    direction outside [DIRECTIONS]; the edge exception, for a callback with
    an edge outside [EDGES]; the invalid-polarity exception, for an
    [active_low] outside [ACTIVE_LOW_MODES]; or the [IOError] of a refused
    system call.  The missing-edge exception of [Pin.__init__] never comes
    out of [alloc_pin]: its own edge test is the stronger one. *)
Theorem alloc_pin_exceptions
    number direction callback edge active_low (m m' : Machine) (e : PyExc) :
  alloc_pin number direction callback edge active_low m = (Raise e, m') →
  e ≠ MissingEdge
  ∧ ((e = OutOfRange ∧ (number ∉ _available_pins (ctl m)))
     ∨ (e = AlreadyAllocated ∧ is_Some (_allocated_pins (ctl m) !! number))
     ∨ (e = Exception ("Pin direction " +:+ direction +:+ " not in "
                       +:+ py_tuple DIRECTIONS)
        ∧ (direction ∉ DIRECTIONS))
     ∨ (e = Exception ("Pin edge " +:+ py_str edge +:+ " not in "
                       +:+ py_tuple EDGES)
        ∧ is_Some callback ∧ (edge ∉ Some <$> EDGES))
     ∨ (e = InvalidPolarity ∧ (active_low ∉ ACTIVE_LOW_MODES))
     ∨ is_IOError e).
Proof.
  unfold alloc_pin, _check_pin_already_exported. intros H.
  binds_inv; try discriminate.
  all: injection H as ->.
  - (* the registration is refused *)
    match goal with
    | H : when _ (_poll_queue_register_pin _) _ = _ |- _ =>
        apply when_inv in H as [[_ H]|(_ & [=] & _)];
        apply epoll_register_raise in H as [[errno ->] _]
    end.
    split; [distinct_exc|]. do 5 right. by eexists.
  - (* [Pin.__init__] raises *)
    match goal with
    | H : when (_ && _) (raise _) _ = (Ok _, _) |- _ =>
        apply when_raise_inv in H as [_ Hb]
    end.
    match goal with
    | H : Pin_init _ _ _ _ _ _ = _ |- _ =>
        apply Pin_init_raise in H
          as [[errno ->]|[(-> & Hsome & Ht)|(-> & Hmode)]]
    end.
    + split; [distinct_exc|]. do 5 right. by eexists.
    + exfalso. rewrite (bool_decide_eq_true_2 _ Hsome) in Hb.
      case_bool_decide as Hed; simpl in Hb; [|discriminate].
      by rewrite (truthy_EDGES _ Hed) in Ht.
    + split; [distinct_exc|]. do 4 right. by left.
  - (* the export write is refused *)
    match goal with
    | H : when _ (write_file _ _) _ = _ |- _ =>
        apply when_inv in H as [[_ H]|(_ & [=] & _)];
        apply write_file_raise in H as [[errno ->] _]
    end.
    split; [distinct_exc|]. do 5 right. by eexists.
  - (* the edge is not one for a callback *)
    match goal with
    | H : when (_ && _) (raise _) _ = (Raise _, _) |- _ =>
        apply when_raise_inv in H as [_ Hb]
    end.
    destruct (bool_decide (is_Some callback)) eqn:Hc; simpl in Hb;
      [|discriminate].
    case_bool_decide as Hed; simpl in Hb; [discriminate|].
    injection Hb as ->. split; [distinct_exc|].
    do 3 right. left. split_and!; [done| |done].
    by apply bool_decide_eq_true_1 in Hc.
  - (* the direction is not one *)
    match goal with
    | H : when (negb _) (raise _) _ = (Raise _, _) |- _ =>
        apply when_raise_inv in H as [_ Hb]
    end.
    case_bool_decide as Hdir; simpl in Hb; [discriminate|].
    injection Hb as ->. split; [distinct_exc|].
    do 2 right. left. done.
  - (* the number is not valid *)
    match goal with
    | H : _check_pin_validity _ _ = _ |- _ =>
        apply check_pin_validity_raise in H
          as [_ [[Hav ->]|(Hav & Hal & ->)]]
    end.
    + split; [distinct_exc|]. by left.
    + split; [distinct_exc|]. right. by left.
Qed.

(** X5 on the board: the allocation that fails on its polarity. *)
Lemma alloc_pin_exceptions_witness :
  alloc_pin 17 INPUT None None 2 m_boot
  = (Raise InvalidPolarity, run (alloc_pin 17 INPUT None None 2) m_boot)
  ∧ InvalidPolarity ≠ MissingEdge.
Proof.
  assert (alloc_pin 17 INPUT None None 2 m_boot
          = (Raise InvalidPolarity,
             run (alloc_pin 17 INPUT None None 2) m_boot)) as Hrun
    by reflexivity.
  split; [exact Hrun|].
  exact (proj1 (alloc_pin_exceptions 17 INPUT None None 2 m_boot _
                  InvalidPolarity Hrun)).
Defined.

(** ** What a failed allocation leaves behind *)

Lemma Pin_init_bad_polarity number direction callback edge active_low m :
  no_fault (env m) →
  (is_Some callback → truthy edge = true) →
  active_low ∉ ACTIVE_LOW_MODES →
  ∃ m', Pin_init number direction callback edge active_low m
        = (Raise InvalidPolarity, m')
    ∧ ctl m' = ctl m
    ∧ registered (env m') = registered (env m)
    ∧ exported (env m') = exported (env m)
    ∧ next_fd (env m') = next_fd (env m) + 1
    ∧ trace (env m')
      = (trace (env m)
         ++ [EvOpen (Value number) (next_fd (env m));
             EvWrite (Direction number) direction]
         ++ if truthy edge then [EvWrite (Edge number) (py_str edge)]
            else [])%list.
Proof.
  intros Hnf Hcb Hmode. unfold Pin_init.
  assert (active_low ≠ 0) as Hal.
  { intros ->. apply Hmode. apply elem_of_cons. right.
    apply elem_of_cons. by left. }
  step open_file_ok.
  assert (bool_decide (is_Some callback) && negb (truthy edge) = false)
    as ->.
  { case_bool_decide as Hc; [|done]. by rewrite (Hcb Hc). }
  rewrite (bind_Ok _ _ _ _ _ (when_false _ _)).
  step write_file_ok.
  rewrite (bool_decide_eq_false_2 _ Hmode).
  rewrite (proj2 (Z.eqb_neq _ _) Hal). simpl negb.
  destruct (truthy edge); simpl when.
  - step write_file_ok.
    eexists. split; [reflexivity|]. simpl.
    split_and!; try done. by rewrite <- !app_assoc.
  - rewrite (bind_Ok _ _ _ _ _ (ret_run tt _)).
    eexists. split; [reflexivity|]. simpl.
    split_and!; try done. by rewrite <- !app_assoc.
Qed.

(** X6.  An [alloc_pin] that fails on its polarity, with the other
    arguments valid and nothing refused, has already exported the pin,
    opened its value file and written its direction (and its edge, when
    one is given): the pin's directory exists afterwards and a descriptor
    is used up, while the dictionary and the epoll set are as before. *)
Theorem alloc_pin_bad_polarity_leftovers
    number direction callback edge active_low (m : Machine) :
  number ∈ _available_pins (ctl m) →
  _allocated_pins (ctl m) !! number = None →
  direction ∈ DIRECTIONS →
  (is_Some callback → edge ∈ Some <$> EDGES) →
  active_low ∉ ACTIVE_LOW_MODES →
  no_fault (env m) →
  ∃ m', alloc_pin number direction callback edge active_low m
        = (Raise InvalidPolarity, m')
    ∧ ctl m' = ctl m
    ∧ registered (env m') = registered (env m)
    ∧ number ∈ exported (env m')
    ∧ next_fd (env m') = next_fd (env m) + 1
    ∧ effects_of (alloc_pin number direction callback edge active_low) m
      = ((if bool_decide (number ∈ exported (env m)) then []
          else [EvWrite Export (pretty number)])
         ++ [EvOpen (Value number) (next_fd (env m));
             EvWrite (Direction number) direction]
         ++ if truthy edge then [EvWrite (Edge number) (py_str edge)]
            else [])%list.
Proof.
  intros Hav Hnone Hdir Hedge Hmode Hnf.
  cut (∃ m', alloc_pin number direction callback edge active_low m
             = (Raise InvalidPolarity, m')
         ∧ ctl m' = ctl m
         ∧ registered (env m') = registered (env m)
         ∧ number ∈ exported (env m')
         ∧ next_fd (env m') = next_fd (env m) + 1
         ∧ trace (env m')
           = (trace (env m)
              ++ (if bool_decide (number ∈ exported (env m)) then []
                  else [EvWrite Export (pretty number)])
              ++ [EvOpen (Value number) (next_fd (env m));
                  EvWrite (Direction number) direction]
              ++ if truthy edge then [EvWrite (Edge number) (py_str edge)]
                 else [])%list).
  { intros (m' & Hrun & ? & ? & ? & ? & Ht). exists m'.
    split_and!; [done..|]. by eapply effects_of_app. }
  unfold alloc_pin.
  rewrite (bind_Ok _ _ _ _ _ (check_pin_validity_ok _ _ Hav Hnone)).
  rewrite (bool_decide_eq_true_2 _ Hdir). simpl negb.
  rewrite (bind_Ok _ _ _ _ _ (when_false _ _)).
  match goal with
  | |- context [when (?b1 && negb ?b2)] =>
      assert (b1 && negb b2 = false) as ->
  end.
  { case_bool_decide as Hc; [|done].
    by rewrite (bool_decide_eq_true_2 _ (Hedge Hc)). }
  rewrite (bind_Ok _ _ _ _ _ (when_false _ _)).
  unfold _check_pin_already_exported.
  rewrite (bind_Ok _ _ _ _ _ (path_isdir_run _ _)).
  destruct (export_if_needed_trace number m (Hnf _))
    as (m1 & Hexp & Hc1 & Hf1 & Hr1 & Hn1 & Hl1 & Hin1 & Hx1 & Ht1).
  rewrite (bind_Ok _ _ _ _ _ Hexp).
  destruct (Pin_init_bad_polarity number direction callback edge active_low m1)
    as (m2 & Hinit & Hc2 & Hr2 & Hx2 & Hn2 & Ht2).
  { intros op. rewrite Hf1. apply Hnf. }
  { intros Hc. by apply truthy_EDGES, Hedge. }
  { done. }
  rewrite (bind_Raise _ _ _ _ _ Hinit). exists m2. split; [done|].
  split_and!; [congruence|congruence|by rewrite Hx2|lia|].
  rewrite Ht2, Ht1, Hn1. by rewrite <- !app_assoc.
Qed.

(** X6 on the board: pin 17 with [active_low = 2]. *)
Lemma alloc_pin_bad_polarity_leftovers_witness :
  ∃ m', alloc_pin 17 INPUT (Some quiet) (Some BOTH) 2 m_boot
        = (Raise InvalidPolarity, m')
    ∧ _allocated_pins (ctl m') = ∅
    ∧ 17 ∈ exported (env m')
    ∧ effects_of (alloc_pin 17 INPUT (Some quiet) (Some BOTH) 2) m_boot
      = [EvWrite Export "17"; EvOpen (Value 17) 3;
         EvWrite (Direction 17) "in"; EvWrite (Edge 17) "both"].
Proof.
  destruct (alloc_pin_bad_polarity_leftovers 17 INPUT (Some quiet) (Some BOTH)
              2 m_boot) as (m' & Hrun & Hc & _ & Hx & _ & Heff).
  - apply elem_of_cons. right. apply elem_of_cons. by left.
  - reflexivity.
  - apply elem_of_cons. by left.
  - intros _. apply elem_of_cons. right. apply elem_of_cons. right.
    apply elem_of_cons. by left.
  - intros [H|[H|H]%elem_of_cons]%elem_of_cons;
      [discriminate | discriminate | by apply elem_of_nil in H].
  - intros op. reflexivity.
  - exists m'. split_and!; [exact Hrun | by rewrite Hc | exact Hx | exact Heff].
Defined.

(** ** Looking pins up *)

Lemma get_pin_allocated number pin m :
  _allocated_pins (ctl m) !! number = Some pin →
  get_pin number m = (Ok pin, m).
Proof. intros H. unfold get_pin, bind, get_ctl. by rewrite H. Qed.

Lemma get_pin_lookup number m :
  (get_pin number m).1
  = match _allocated_pins (ctl m) !! number with
    | Some pin => Ok pin
    | None => Raise (KeyError number)
    end.
Proof.
  unfold get_pin, bind, get_ctl. simpl.
  by destruct (_allocated_pins (ctl m) !! number).
Qed.

(** X7.  Once [alloc_pin] has returned a pin, [get_pin] of that number
    returns this very pin, and [get_pin] of any other number answers as it
    did before the allocation. *)
Theorem get_pin_after_alloc_pin
    number direction callback edge active_low (pin : Pin) (m m' : Machine) :
  alloc_pin number direction callback edge active_low m = (Ok pin, m') →
  get_pin number m' = (Ok pin, m')
  ∧ ∀ other, other ≠ number → (get_pin other m').1 = (get_pin other m).1.
Proof.
  intros Hrun. apply alloc_pin_ctl in Hrun as (Hctl & _).
  split.
  - apply get_pin_allocated. rewrite Hctl. simpl. apply lookup_insert_eq.
  - intros other Hne. rewrite !get_pin_lookup, Hctl. simpl.
    by rewrite lookup_insert_ne.
Qed.

(** X7 on the board: pin 4 next to pin 17. *)
Lemma get_pin_after_alloc_pin_witness :
  get_pin 4 m_two = (Ok pin4, m_two)
  ∧ (get_pin 17 m_two).1 = (get_pin 17 m17).1.
Proof.
  destruct (get_pin_after_alloc_pin 4 INPUT (Some noisy) (Some BOTH) 0
              pin4 m17 m_two) as [Hsame Hother]; [reflexivity|].
  split; [exact Hsame|]. by apply Hother.
Defined.

(** X8.  Once [dealloc_pin] has returned, the number is unknown to all five
    accessors: [get_pin] raises [KeyError], the guarded ones the
    not-allocated exception, and nothing changes; every other number is
    looked up as before. *)
Theorem accessors_after_dealloc_pin (number : Z) (m m' : Machine) :
  dealloc_pin number m = (Ok tt, m') →
  get_pin number m' = (Raise (KeyError number), m')
  ∧ set_pin number m' = (Raise (NotAllocated number), m')
  ∧ reset_pin number m' = (Raise (NotAllocated number), m')
  ∧ get_pin_state number m' = (Raise (NotAllocated number), m')
  ∧ dealloc_pin number m' = (Raise (NotAllocated number), m')
  ∧ ∀ other, other ≠ number → (get_pin other m').1 = (get_pin other m).1.
Proof.
  intros Hrun. apply dealloc_pin_ctl in Hrun as [Hctl _].
  assert (_allocated_pins (ctl m') !! number = None) as Hnone.
  { rewrite Hctl. simpl. apply lookup_delete_eq. }
  destruct (guarded_accessors_not_allocated number m' Hnone)
    as (Hs & Hr & Hg & Hd).
  split_and!; [by apply get_pin_not_allocated|done..|].
  intros other Hne. rewrite !get_pin_lookup, Hctl. simpl.
  by rewrite lookup_delete_ne.
Qed.

(** X8 on the board: pin 17 deallocated. *)
Lemma accessors_after_dealloc_pin_witness :
  get_pin 17 (run (dealloc_pin 17) m17)
  = (Raise (KeyError 17), run (dealloc_pin 17) m17)
  ∧ get_pin_state 17 (run (dealloc_pin 17) m17)
    = (Raise (NotAllocated 17), run (dealloc_pin 17) m17).
Proof.
  destruct (accessors_after_dealloc_pin 17 m17 (run (dealloc_pin 17) m17))
    as (Hget & _ & _ & Hstate & _); [reflexivity|].
  split; [exact Hget | exact Hstate].
Defined.

(** ** Deallocation: the other paths *)

Lemma is_INPUT_false direction : is_INPUT direction = false ↔ direction ≠ INPUT.
Proof. apply String.eqb_neq. Qed.

(** X9.  On an allocated pin that is not an input, when the unexport write
    is not refused, [dealloc_pin] returns after that one write: the poller
    is not touched, the pin leaves the dictionary and its directory
    disappears. *)
Theorem dealloc_pin_output (number : Z) (pin : Pin) (m : Machine) :
  _allocated_pins (ctl m) !! number = Some pin →
  _direction pin ≠ INPUT →
  faults (env m) (OpWrite Unexport) = None →
  ∃ m', dealloc_pin number m = (Ok tt, m')
    ∧ effects_of (dealloc_pin number) m = [EvWrite Unexport (pretty number)]
    ∧ _allocated_pins (ctl m') = delete number (_allocated_pins (ctl m))
    ∧ exported (env m') = exported (env m) ∖ {[number]}
    ∧ registered (env m') = registered (env m).
Proof.
  intros Hpin Hdir Hw.
  eassert (dealloc_pin number m = (Ok tt, _)) as Hrun.
  { unfold dealloc_pin. rewrite (bind_Ok _ _ _ _ _ (get_ctl_run m)).
    rewrite Hpin. rewrite (bind_Ok _ _ _ _ _ (write_file_ok _ _ _ Hw)).
    rewrite (proj2 (is_INPUT_false _) Hdir). simpl when.
    rewrite (bind_Ok _ _ _ _ _ (ret_run tt _)). reflexivity. }
  eexists. split; [exact Hrun|]. split_and!; [|done..].
  eapply effects_of_app; [exact Hrun|]. done.
Qed.

(** X9 on the board: an output pin 4 allocated and deallocated. *)
Lemma dealloc_pin_output_witness :
  ∃ m', dealloc_pin 4 (run (alloc_pin 4 OUTPUT None None 0) m17) = (Ok tt, m')
    ∧ effects_of (dealloc_pin 4) (run (alloc_pin 4 OUTPUT None None 0) m17)
      = [EvWrite Unexport "4"].
Proof.
  destruct (dealloc_pin_output 4 (mkPin 4 OUTPUT None 0 (mkFile 4 (Value 4)))
              (run (alloc_pin 4 OUTPUT None None 0) m17))
    as (m' & Hrun & Heff & _); [reflexivity | discriminate | reflexivity |].
  exists m'. split; [exact Hrun | exact Heff].
Defined.

(** X10.  When the unexport write is refused, [dealloc_pin] of an allocated
    pin raises that [IOError] with the machine untouched: the pin stays
    allocated, exported and, if armed, registered. *)
Theorem dealloc_pin_unexport_refused
    (number : Z) (pin : Pin) (errno : Z) (m : Machine) :
  _allocated_pins (ctl m) !! number = Some pin →
  faults (env m) (OpWrite Unexport) = Some errno →
  dealloc_pin number m = (Raise (IOError errno), m).
Proof.
  intros Hpin Hw. unfold dealloc_pin.
  rewrite (bind_Ok _ _ _ _ _ (get_ctl_run m)). rewrite Hpin.
  apply bind_Raise. unfold write_file, syscall. by rewrite Hw.
Qed.


(** X10 on the board: pin 17 with the unexport endpoint refusing. *)
Lemma dealloc_pin_unexport_refused_witness :
  dealloc_pin 17 (refusing (OpWrite Unexport) 13 m17)
  = (Raise (IOError 13), refusing (OpWrite Unexport) 13 m17).
Proof.
  apply (dealloc_pin_unexport_refused 17 pin17 13
           (refusing (OpWrite Unexport) 13 m17)); reflexivity.
Defined.


(** ** Reading and driving a pin *)

Lemma get_pin_state_run number pin m :
  _allocated_pins (ctl m) !! number = Some pin →
  faults (env m) (OpRead (f_name (_fd pin))) = None →
  (_direction pin = INPUT →
     faults (env m) (OpUnregister (Pin_fileno pin)) = None
     ∧ faults (env m) (OpRegister (Pin_fileno pin)) = None
     ∧ Pin_fileno pin ∈ registered (env m)) →
  ∃ m', get_pin_state number m
        = (Ok (negb (Z.leb (kernel_read (f_name (_fd pin)) (env m)) 0)), m')
    ∧ ctl m' = ctl m
    ∧ faults (env m') = faults (env m)
    ∧ level (env m') = level (env m)
    ∧ exported (env m') = exported (env m)
    ∧ registered (env m') = registered (env m).
Proof.
  intros Hpin Hr Hin.
  set (val := kernel_read (f_name (_fd pin)) (env m)).
  unfold get_pin_state.
  rewrite (bind_Ok _ _ _ _ _ (get_ctl_run m)). rewrite Hpin.
  destruct (is_INPUT (_direction pin)) eqn:Hdir; simpl when.
  - apply is_INPUT_true in Hdir. destruct (Hin Hdir) as (Hu & Hg & Hreg).
    unfold _poll_queue_unregister_pin, _poll_queue_register_pin, Pin_read.
    step epoll_unregister_ok. step read_file_ok.
    step epoll_register_ok;
      [|intros [_ Hx]%elem_of_difference; apply Hx; by apply elem_of_singleton].
    rewrite (kernel_read_ext _ _ (env m)) by done. fold val.
    eexists. split; [by destruct (Z.leb val 0)|].
    simpl. split_and!; try done.
    apply set_eq. intros x.
    rewrite elem_of_union, elem_of_difference, elem_of_singleton.
    destruct (decide (x = Pin_fileno pin)) as [->|]; tauto.
  - unfold Pin_read. rewrite (bind_Ok _ _ _ _ _ (ret_run tt m)).
    step read_file_ok. rewrite (bind_Ok _ _ _ _ _ (ret_run tt _)).
    fold val. eexists. split; [by destruct (Z.leb val 0)|]. done.
Qed.

(** X12.  When the read of an input pin's value is refused,
    [get_pin_state] raises that [IOError] after the unregistration and
    before the registration: the pin stays allocated with its descriptor
    no longer armed, so that the next [get_pin_state] of the pin fails in
    its unregistration with [ENOENT]. *)
Theorem get_pin_state_read_refused
    (number : Z) (pin : Pin) (errno : Z) (m : Machine) :
  _allocated_pins (ctl m) !! number = Some pin →
  _direction pin = INPUT →
  faults (env m) (OpUnregister (Pin_fileno pin)) = None →
  Pin_fileno pin ∈ registered (env m) →
  faults (env m) (OpRead (f_name (_fd pin))) = Some errno →
  ∃ m', get_pin_state number m = (Raise (IOError errno), m')
    ∧ _allocated_pins (ctl m') !! number = Some pin
    ∧ registered (env m') = registered (env m) ∖ {[Pin_fileno pin]}
    ∧ effects_of (get_pin_state number) m = [EvUnregister (Pin_fileno pin)]
    ∧ get_pin_state number m' = (Raise (IOError ENOENT), m').
Proof.
  intros Hpin Hdir Hu Hreg Hread.
  eassert (get_pin_state number m = (Raise (IOError errno), _)) as Hrun.
  { unfold get_pin_state.
    rewrite (bind_Ok _ _ _ _ _ (get_ctl_run m)). rewrite Hpin.
    rewrite (proj2 (is_INPUT_true _) Hdir). simpl when.
    unfold _poll_queue_unregister_pin, Pin_read.
    step epoll_unregister_ok.
    apply bind_Raise. unfold read_file, syscall. simpl. by rewrite Hread. }
  eexists. split; [exact Hrun|]. split_and!; [done|done| |].
  - eapply effects_of_app; [exact Hrun|]. done.
  - unfold get_pin_state.
    match goal with |- bind _ _ ?mx = _ =>
      rewrite (bind_Ok _ _ _ _ _ (get_ctl_run mx)) end.
    simpl. rewrite Hpin.
    rewrite (proj2 (is_INPUT_true _) Hdir). simpl when.
    apply bind_Raise.
    unfold _poll_queue_unregister_pin, epoll_unregister, syscall. simpl.
    rewrite Hu. rewrite decide_False; [done|].
    intros [_ Hx]%elem_of_difference. apply Hx. by apply elem_of_singleton.
Qed.

(** X12 on the board: the value file of pin 17 refuses to be read. *)
Lemma get_pin_state_read_refused_witness :
  ∃ m', get_pin_state 17 (refusing (OpRead (Value 17)) 5 m17)
        = (Raise (IOError 5), m')
    ∧ registered (env m') = registered (env m17) ∖ {[3]}
    ∧ get_pin_state 17 m' = (Raise (IOError ENOENT), m').
Proof.
  destruct (get_pin_state_read_refused 17 pin17 5
              (refusing (OpRead (Value 17)) 5 m17))
    as (m' & Hrun & _ & Hreg & _ & Hnext);
    [reflexivity | reflexivity | reflexivity | | reflexivity |].
  - exact (consistent_registered m17 17 pin17 m17_consistent
             eq_refl eq_refl).
  - exists m'. by split_and!.
Defined.

(** X13.  [set_pin] and [reset_pin] of an allocated pin write ['1'] and
    ['0'] to the pin's value file and do nothing else; when no operation
    is refused, [get_pin_state] afterwards answers [True] after [set_pin]
    and [False] after [reset_pin], whatever the level was before. *)
Theorem set_pin_reset_pin_get_pin_state
    (number : Z) (pin : Pin) (m : Machine) :
  _allocated_pins (ctl m) !! number = Some pin →
  f_name (_fd pin) = Value number →
  faults (env m) (OpWrite (Value number)) = None →
  faults (env m) (OpRead (Value number)) = None →
  (_direction pin = INPUT →
     faults (env m) (OpUnregister (Pin_fileno pin)) = None
     ∧ faults (env m) (OpRegister (Pin_fileno pin)) = None
     ∧ Pin_fileno pin ∈ registered (env m)) →
  ∃ m1 m0,
    set_pin number m = (Ok tt, m1)
    ∧ effects_of (set_pin number) m
      = [EvWrite (Value number) SYSFS_GPIO_VALUE_HIGH]
    ∧ (get_pin_state number m1).1 = Ok true
    ∧ reset_pin number m = (Ok tt, m0)
    ∧ effects_of (reset_pin number) m
      = [EvWrite (Value number) SYSFS_GPIO_VALUE_LOW]
    ∧ (get_pin_state number m0).1 = Ok false.
Proof.
  intros Hpin Hname Hw Hr Hin.
  eassert (set_pin number m = (Ok tt, _)) as Hset.
  { unfold set_pin. rewrite (bind_Ok _ _ _ _ _ (get_ctl_run m)).
    rewrite Hpin. unfold Pin_set. rewrite Hname. by apply write_file_ok. }
  eassert (reset_pin number m = (Ok tt, _)) as Hreset.
  { unfold reset_pin. rewrite (bind_Ok _ _ _ _ _ (get_ctl_run m)).
    rewrite Hpin. unfold Pin_reset. rewrite Hname. by apply write_file_ok. }
  do 2 eexists. split; [exact Hset|]. split; [|split; [|split; [exact Hreset|split]]].
  - eapply effects_of_app; [exact Hset|]. done.
  - match goal with |- (get_pin_state _ ?mx).1 = _ =>
      destruct (get_pin_state_run number pin mx) as (m' & -> & _) end;
      try (rewrite Hname); try done.
    simpl. by rewrite decide_True.
  - eapply effects_of_app; [exact Hreset|]. done.
  - match goal with |- (get_pin_state _ ?mx).1 = _ =>
      destruct (get_pin_state_run number pin mx) as (m' & -> & _) end;
      try (rewrite Hname); try done.
    simpl. by rewrite decide_True.
Qed.

(** X13 on the board, for pin 4 (an input pin, so the read is wrapped in
    the unregistration and the registration). *)
Lemma set_pin_reset_pin_get_pin_state_witness :
  ∃ m1 m0,
    set_pin 4 m_two = (Ok tt, m1)
    ∧ (get_pin_state 4 m1).1 = Ok true
    ∧ reset_pin 4 m_two = (Ok tt, m0)
    ∧ (get_pin_state 4 m0).1 = Ok false.
Proof.
  destruct (set_pin_reset_pin_get_pin_state 4 pin4 m_two)
    as (m1 & m0 & H1 & _ & H2 & H3 & _ & H4);
    [reflexivity | reflexivity | reflexivity | reflexivity | |].
  - intros Hdir. split_and!; [reflexivity | reflexivity |].
    exact (consistent_registered m_two 4 pin4 m_two_consistent
             eq_refl Hdir).
  - exists m1, m0. by split_and!.
Defined.

(** ** Stopping the controller *)

Lemma dealloc_pin_succeeds number pin m :
  consistent m →
  no_fault (env m) →
  _allocated_pins (ctl m) !! number = Some pin →
  ∃ m', dealloc_pin number m = (Ok tt, m')
    ∧ ctl m' = set_allocated (delete number (_allocated_pins (ctl m))) (ctl m)
    ∧ faults (env m') = faults (env m)
    ∧ exported (env m') = exported (env m) ∖ {[number]}
    ∧ registered (env m') = registered (env m) ∖ {[Pin_fileno pin]}
    ∧ consistent m'.
Proof.
  intros Hc Hnf Hpin.
  pose proof (dealloc_pin_consistent number m Hc) as Hc'. unfold run in Hc'.
  destruct (is_INPUT (_direction pin)) eqn:Hdir.
  - apply is_INPUT_true in Hdir.
    pose proof (dealloc_pin_INPUT_run number pin m Hpin Hdir (Hnf _) (Hnf _)
                  (consistent_registered m number pin Hc Hpin Hdir)) as Hrun.
    rewrite Hrun in Hc'. eexists. split; [exact Hrun|]. by split_and!.
  - eassert (dealloc_pin number m = (Ok tt, _)) as Hrun.
    { unfold dealloc_pin. rewrite (bind_Ok _ _ _ _ _ (get_ctl_run m)).
      rewrite Hpin. rewrite (bind_Ok _ _ _ _ _ (write_file_ok _ _ _ (Hnf _))).
      rewrite Hdir. simpl when.
      rewrite (bind_Ok _ _ _ _ _ (ret_run tt _)). reflexivity. }
    rewrite Hrun in Hc'. eexists. split; [exact Hrun|].
    split_and!; try done. simpl.
    destruct Hc as (_ & _ & _ & Hpins).
    destruct (Hpins number pin Hpin) as [_ Hiff].
    apply is_INPUT_false in Hdir.
    apply set_eq. intros x. rewrite elem_of_difference, elem_of_singleton.
    split; [|tauto]. intros Hx. split; [done|]. intros ->. tauto.
Qed.

(** The loop of [stop] on pins that are all allocated under their own,
    pairwise distinct, numbers. *)
Lemma stop_loop_run (l : list Pin) : ∀ m,
  consistent m →
  no_fault (env m) →
  NoDup (_number <$> l) →
  (∀ pin, pin ∈ l → _allocated_pins (ctl m) !! _number pin = Some pin) →
  ∃ m', for_each l (λ pin, dealloc_pin (_number pin)) m = (Ok tt, m')
    ∧ (∀ n, _allocated_pins (ctl m') !! n
            = if decide (n ∈ _number <$> l) then None
              else _allocated_pins (ctl m) !! n)
    ∧ _available_pins (ctl m') = _available_pins (ctl m)
    ∧ _running (ctl m') = _running (ctl m)
    ∧ (∀ n, n ∈ exported (env m')
            ↔ n ∈ exported (env m) ∧ n ∉ _number <$> l)
    ∧ (∀ fd, fd ∈ registered (env m')
             ↔ fd ∈ registered (env m) ∧ fd ∉ Pin_fileno <$> l).
Proof.
  induction l as [|x l IH]; intros m Hc Hnf Hnd Hall.
  - exists m. split; [reflexivity|]. split_and!; try done.
    + intros n. split; [|tauto]. intros Hn. split; [done|].
      by intros ?%elem_of_nil.
    + intros n. split; [|tauto]. intros Hn. split; [done|].
      by intros ?%elem_of_nil.
  - rewrite fmap_cons in Hnd. apply NoDup_cons in Hnd as [Hx Hnd].
    destruct (dealloc_pin_succeeds (_number x) x m Hc Hnf)
      as (m1 & Hrun & Hctl & Hf & He & Hr & Hc1).
    { apply Hall. by left. }
    destruct (IH m1 Hc1) as (m' & Hloop & Hlk & Hav & Hrn & Hex & Hrg).
    { intros op. rewrite Hf. apply Hnf. }
    { exact Hnd. }
    { intros pin Hin. rewrite Hctl. simpl.
      rewrite lookup_delete_ne; [apply Hall; by right|].
      intros Heq. apply Hx. rewrite Heq. by apply list_elem_of_fmap_2. }
    exists m'. split.
    { simpl for_each. by rewrite (bind_Ok _ _ _ _ _ Hrun). }
    rewrite Hctl in Hlk, Hav, Hrn. simpl in Hlk, Hav, Hrn.
    split_and!; try done.
    + intros n. rewrite Hlk. rewrite fmap_cons.
      destruct (decide (n = _number x)) as [->|Hne].
      * rewrite (decide_True (P := _ ∈ _ :: _)) by (by left).
        destruct (decide _); [done|]. by rewrite lookup_delete_eq.
      * rewrite lookup_delete_ne by done.
        destruct (decide (n ∈ _number <$> l)) as [Hin|Hnin].
        -- rewrite decide_True; [done|]. by right.
        -- rewrite decide_False; [done|].
           intros [?|?]%elem_of_cons; tauto.
    + intros n. rewrite Hex, He, elem_of_difference, elem_of_singleton.
      rewrite fmap_cons, not_elem_of_cons. tauto.
    + intros fd. rewrite Hrg, Hr, elem_of_difference, elem_of_singleton.
      rewrite fmap_cons, not_elem_of_cons. tauto.
Qed.

Lemma values_numbers (pins : gmap Z Pin) :
  (∀ n p, pins !! n = Some p → _number p = n) →
  _number <$> values pins = (map_to_list pins).*1.
Proof.
  intros Hk. unfold values. rewrite <- list_fmap_compose.
  apply Forall_fmap_ext_1, Forall_forall. intros [n p] Hin.
  apply elem_of_map_to_list in Hin. simpl. by apply Hk.
Qed.

(** X14.  On a consistent machine whose environment refuses nothing,
    [stop] returns with [_running] cleared and the dictionary empty: the
    directories of exactly the allocated pins are gone, the descriptors of
    exactly those pins are disarmed, and [available_pins] is as before. *)
Theorem stop_releases_every_pin (m : Machine) :
  consistent m →
  no_fault (env m) →
  ∃ m', stop m = (Ok tt, m')
    ∧ _allocated_pins (ctl m') = ∅
    ∧ _running (ctl m') = false
    ∧ _available_pins (ctl m') = _available_pins (ctl m)
    ∧ (∀ n, n ∈ exported (env m')
            ↔ n ∈ exported (env m) ∧ _allocated_pins (ctl m) !! n = None)
    ∧ (∀ fd, fd ∈ registered (env m')
             ↔ fd ∈ registered (env m)
               ∧ ∀ pin, pin ∈ values (_allocated_pins (ctl m)) →
                        Pin_fileno pin ≠ fd).
Proof.
  intros Hc Hnf.
  pose proof (consistent_keys_ok m Hc) as Hkeys.
  set (m0 := mkMachine (set_running false (ctl m)) (env m)).
  assert (consistent m0) as Hc0 by exact Hc.
  destruct (stop_loop_run (values (_allocated_pins (ctl m))) m0 Hc0 Hnf)
    as (m' & Hloop & Hlk & Hav & Hrn & Hex & Hrg).
  { rewrite (values_numbers _ Hkeys). apply NoDup_fst_map_to_list. }
  { intros pin [n Hn]%elem_of_values. simpl.
    by rewrite (Hkeys n pin Hn). }
  assert (∀ n, n ∈ _number <$> values (_allocated_pins (ctl m))
               ↔ is_Some (_allocated_pins (ctl m) !! n)) as Hdom.
  { intros n. rewrite list_elem_of_fmap. split.
    - intros (pin & -> & [k Hk]%elem_of_values).
      rewrite (Hkeys k pin Hk). by exists pin.
    - intros [pin Hpin]. exists pin. split; [by rewrite (Hkeys n pin Hpin)|].
      apply elem_of_values. by exists n. }
  exists m'. split.
  { unfold stop. rewrite (bind_Ok _ _ _ _ _ (get_ctl_run m)).
    eassert (put_ctl (set_running false (ctl m)) m = (Ok tt, m0)) as Hput
      by reflexivity.
    rewrite (bind_Ok _ _ _ _ _ Hput).
    rewrite (bind_Ok _ _ _ _ _ (get_ctl_run m0)). exact Hloop. }
  split_and!; try done.
  - apply map_eq. intros n. rewrite Hlk, lookup_empty. simpl.
    destruct (decide _) as [|Hn]; [done|].
    rewrite Hdom in Hn. by apply eq_None_not_Some.
  - intros n. rewrite Hex, Hdom. simpl. by rewrite eq_None_not_Some.
  - intros fd. rewrite Hrg. simpl. rewrite list_elem_of_fmap. split.
    + intros [Hfd Hn]. split; [done|]. intros pin Hin Heq.
      apply Hn. by exists pin.
    + intros [Hfd Hn]. split; [done|]. intros (pin & -> & Hin).
      by apply (Hn pin).
Qed.

(** X14 on the board with pins 4 and 17. *)
Lemma stop_releases_every_pin_witness :
  ∃ m', stop m_two = (Ok tt, m')
    ∧ _allocated_pins (ctl m') = ∅
    ∧ _running (ctl m') = false.
Proof.
  destruct (stop_releases_every_pin m_two m_two_consistent)
    as (m' & Hrun & Hempty & Hr & _); [by intros op|].
  exists m'. by split_and!.
Defined.

(** X15.  When the unexport write is refused and some pin is allocated,
    [stop] raises that [IOError] out of its first [dealloc_pin]: no pin is
    deallocated, nothing is written, and [_running] is cleared all the
    same, since it is assigned before the loop. *)
Theorem stop_unexport_refused (errno : Z) (m : Machine) :
  keys_ok (ctl m) →
  _allocated_pins (ctl m) ≠ ∅ →
  faults (env m) (OpWrite Unexport) = Some errno →
  stop m = (Raise (IOError errno),
            mkMachine (set_running false (ctl m)) (env m)).
Proof.
  intros Hkeys Hne Hw.
  unfold stop. rewrite (bind_Ok _ _ _ _ _ (get_ctl_run m)).
  set (m0 := mkMachine (set_running false (ctl m)) (env m)).
  eassert (put_ctl (set_running false (ctl m)) m = (Ok tt, m0)) as Hput
    by reflexivity.
  rewrite (bind_Ok _ _ _ _ _ Hput).
  rewrite (bind_Ok _ _ _ _ _ (get_ctl_run m0)). simpl _allocated_pins.
  destruct (values (_allocated_pins (ctl m))) as [|pin l] eqn:Hv.
  - exfalso. apply Hne. apply map_to_list_empty_iff.
    unfold values in Hv. by apply fmap_nil_inv in Hv.
  - assert (pin ∈ values (_allocated_pins (ctl m))) as Hin
      by (rewrite Hv; by left).
    apply elem_of_values in Hin as [n Hn].
    pose proof (Hkeys n pin Hn) as Hnum.
    simpl for_each. apply bind_Raise.
    unfold dealloc_pin. rewrite (bind_Ok _ _ _ _ _ (get_ctl_run m0)).
    change (_allocated_pins (ctl m0)) with (_allocated_pins (ctl m)).
    rewrite Hnum, Hn.
    apply bind_Raise. unfold write_file, syscall. simpl. by rewrite Hw.
Qed.

(** X15 on the board: pin 17 stays allocated. *)
Lemma stop_unexport_refused_witness :
  stop (refusing (OpWrite Unexport) 13 m17)
  = (Raise (IOError 13),
     mkMachine (set_running false (ctl m17))
               (env (refusing (OpWrite Unexport) 13 m17))).
Proof.
  apply (stop_unexport_refused 13 (refusing (OpWrite Unexport) 13 m17)).
  - exact (consistent_keys_ok m17 m17_consistent).
  - intros Habs.
    assert (_allocated_pins (ctl m17) !! 17 = Some pin17) as H17
      by reflexivity.
    change (_allocated_pins (ctl (refusing (OpWrite Unexport) 13 m17)))
      with (_allocated_pins (ctl m17)) in Habs.
    rewrite Habs, lookup_empty in H17. discriminate.
  - reflexivity.
Defined.

(** ** Dispatch: what it leaves alone, and what stops it *)

Lemma observed_refl m : observed m m.
Proof.
  split_and!; try done. exists []. by rewrite app_nil_r.
Qed.

Lemma observed_trans m1 m2 m3 :
  observed m1 m2 → observed m2 m3 → observed m1 m3.
Proof.
  intros (Hc & He & Hr & Hn & Hl & Hf & evs & Ht & Hevs)
         (Hc' & He' & Hr' & Hn' & Hl' & Hf' & evs' & Ht' & Hevs').
  split_and!; try congruence.
  exists (evs ++ evs')%list. split; [|by apply Forall_app].
  by rewrite Ht', Ht, app_assoc.
Qed.

Lemma observes_ret {A} (a : A) : observes_only (ret a).
Proof. intros m r m' [_ ->]%ret_inv. apply observed_refl. Qed.

Lemma observes_get_ctl : observes_only get_ctl.
Proof. intros m r m' H. inversion H; subst. apply observed_refl. Qed.

Lemma observes_bind {A B} (c : M A) (k : A → M B) :
  observes_only c → (∀ a, observes_only (k a)) → observes_only (bind c k).
Proof.
  intros Hc Hk m r m' H. bind_inv H.
  - eapply observed_trans; [by eapply Hc | by eapply Hk].
  - by eapply Hc.
Qed.

Lemma observes_for_each {A} (l : list A) body :
  (∀ x, observes_only (body x)) → observes_only (for_each l body).
Proof.
  intros Hb. induction l; simpl; auto using observes_ret, observes_bind.
Qed.

Lemma observes_read_file ep : observes_only (read_file ep).
Proof.
  intros m r m' H. unfold read_file, syscall in H.
  destruct (faults (env m) (OpRead ep)); inversion H; subst.
  - apply observed_refl.
  - split_and!; try done. exists [EvRead ep]. split; [done|].
    by repeat constructor.
Qed.

Lemma observes_call f number state : observes_only (call f number state).
Proof.
  intros m r m' H. unfold call in H.
  assert (m' = mkMachine (ctl m) (log (EvCallback number state) (env m)))
    as -> by (destruct (f number state); by inversion H).
  split_and!; try done. exists [EvCallback number state]. split; [done|].
  by repeat constructor.
Qed.

Lemma observes_scan_pin fd pin : observes_only (scan_pin fd pin).
Proof.
  unfold scan_pin. destruct (Z.eqb (Pin_fileno pin) fd);
    [|apply observes_ret].
  apply observes_bind; [apply observes_read_file|].
  intros val. unfold Pin_changed.
  destruct (_callback pin); [apply observes_call | apply observes_ret].
Qed.

Lemma observes_dispatch_event ev : observes_only (dispatch_event ev).
Proof.
  destruct ev as [fd mask]. unfold dispatch_event.
  destruct (Z.eqb _ 0); [apply observes_ret|].
  apply observes_bind; [apply observes_get_ctl|].
  intros c. apply observes_for_each. intros pin. apply observes_scan_pin.
Qed.


Lemma scan_nobody fd (l : list Pin) m :
  fd ∉ Pin_fileno <$> l → scan fd l m = (Ok tt, m).
Proof.
  unfold scan. induction l as [|x l IH]; intros Hfd; [done|].
  rewrite fmap_cons, not_elem_of_cons in Hfd. destruct Hfd as [Hx Hl].
  simpl for_each. unfold scan_pin at 1.
  rewrite (proj2 (Z.eqb_neq _ _)) by congruence.
  rewrite (bind_Ok _ _ _ _ _ (ret_run tt m)). by apply IH.
Qed.

(** With one descriptor per pin, the inner loop is the body run on the
    one pin that owns the descriptor. *)
Lemma scan_found fd (l : list Pin) pin m :
  NoDup (Pin_fileno <$> l) →
  pin ∈ l →
  Pin_fileno pin = fd →
  scan fd l m = (val <- Pin_read pin ;; Pin_changed pin val) m.
Proof.
  intros Hnd Hin Hfd. revert m Hnd Hin.
  induction l as [|x l IH]; intros m Hnd Hin; [by apply elem_of_nil in Hin|].
  rewrite fmap_cons in Hnd. apply NoDup_cons in Hnd as [Hx Hnd].
  apply elem_of_cons in Hin as [<-|Hin].
  - unfold scan. simpl for_each. unfold scan_pin at 1.
    rewrite (proj2 (Z.eqb_eq _ _) Hfd).
    destruct ((val <- Pin_read pin ;; Pin_changed pin val) m)
      as [[u|e] m1] eqn:E.
    + rewrite (bind_Ok _ _ _ _ _ E). destruct u.
      apply (scan_nobody fd l m1). by rewrite <- Hfd.
    + by rewrite (bind_Raise _ _ _ _ _ E).
  - unfold scan. simpl for_each. unfold scan_pin at 1.
    rewrite (proj2 (Z.eqb_neq _ _)).
    + rewrite (bind_Ok _ _ _ _ _ (ret_run tt m)). by apply IH.
    + intros Heq. apply Hx. rewrite Heq, <- Hfd.
      by apply list_elem_of_fmap_2.
Qed.

(** X17.  When the callback of the pin a pair names raises, the exception
    comes out of [_poll_queue_event] at once: the pin has been read and its
    callback called once, and the pairs that follow in the batch are not
    dispatched. *)
Theorem poll_queue_event_callback_raises
    (fd mask : Z) (rest : list (Z * Z)) (number : Z) (pin : Pin)
    (f : Callback) (e : PyExc) (m : Machine) :
  fd_unique (ctl m) →
  _allocated_pins (ctl m) !! number = Some pin →
  Pin_fileno pin = fd →
  Z.land mask (Z.lor EPOLLPRI EPOLLET) ≠ 0 →
  faults (env m) (OpRead (f_name (_fd pin))) = None →
  _callback pin = Some f →
  f (_number pin) (kernel_read (f_name (_fd pin)) (env m)) = Some e →
  ∃ m', _poll_queue_event ((fd, mask) :: rest) m = (Raise e, m')
    ∧ ctl m' = ctl m
    ∧ effects_of (_poll_queue_event ((fd, mask) :: rest)) m
      = [EvRead (f_name (_fd pin));
         EvCallback (_number pin) (kernel_read (f_name (_fd pin)) (env m))].
Proof.
  intros Huniq Hpin Hfd Hmask Hread Hcb Hf.
  eassert (_poll_queue_event ((fd, mask) :: rest) m = (Raise e, _)) as Hrun.
  { unfold _poll_queue_event. simpl for_each. apply bind_Raise.
    unfold dispatch_event. rewrite (proj2 (Z.eqb_neq _ _) Hmask).
    rewrite (bind_Ok _ _ _ _ _ (get_ctl_run m)).
    rewrite (scan_found fd _ pin m Huniq); [| |done].
    - unfold Pin_read. rewrite (bind_Ok _ _ _ _ _ (read_file_ok _ _ Hread)).
      unfold Pin_changed. rewrite Hcb. unfold call. simpl.
      rewrite Hf. reflexivity.
    - apply elem_of_values. by exists number. }
  eexists. split; [exact Hrun|]. split; [done|].
  eapply effects_of_app; [exact Hrun|]. simpl. by rewrite <- app_assoc.
Qed.

(** X17 on the board: pin 4 has the callback that raises. *)
Lemma poll_queue_event_callback_raises_witness :
  ∃ m', _poll_queue_event [(4, EPOLLPRI); (3, EPOLLPRI)] m_two
        = (Raise (Exception "boom"), m')
    ∧ effects_of (_poll_queue_event [(4, EPOLLPRI); (3, EPOLLPRI)]) m_two
      = [EvRead (Value 4); EvCallback 4 0].
Proof.
  destruct (poll_queue_event_callback_raises 4 EPOLLPRI [(3, EPOLLPRI)]
              4 pin4 noisy (Exception "boom") m_two)
    as (m' & Hrun & _ & Heff);
    [ exact (consistent_fd_unique m_two m_two_consistent)
    | reflexivity | reflexivity | discriminate | reflexivity
    | reflexivity | reflexivity | ].
  exists m'. split; [exact Hrun | exact Heff].
Defined.

(** X18.  When the read of the pin a pair names is refused, the [IOError]
    comes out of [_poll_queue_event] with nothing done: no callback is
    called, for that pair or for those that follow. *)
Theorem poll_queue_event_read_refused
    (fd mask : Z) (rest : list (Z * Z)) (number : Z) (pin : Pin)
    (errno : Z) (m : Machine) :
  fd_unique (ctl m) →
  _allocated_pins (ctl m) !! number = Some pin →
  Pin_fileno pin = fd →
  Z.land mask (Z.lor EPOLLPRI EPOLLET) ≠ 0 →
  faults (env m) (OpRead (f_name (_fd pin))) = Some errno →
  _poll_queue_event ((fd, mask) :: rest) m = (Raise (IOError errno), m).
Proof.
  intros Huniq Hpin Hfd Hmask Hread.
  unfold _poll_queue_event. simpl for_each. apply bind_Raise.
  unfold dispatch_event. rewrite (proj2 (Z.eqb_neq _ _) Hmask).
  rewrite (bind_Ok _ _ _ _ _ (get_ctl_run m)).
  rewrite (scan_found fd _ pin m Huniq); [| |done].
  - apply bind_Raise. unfold Pin_read, read_file, syscall.
    by rewrite Hread.
  - apply elem_of_values. by exists number.
Qed.

(** X18 on the board: the value file of pin 17 cannot be read. *)
Lemma poll_queue_event_read_refused_witness :
  _poll_queue_event [(3, EPOLLPRI); (4, EPOLLPRI)]
    (refusing (OpRead (Value 17)) 5 m_two)
  = (Raise (IOError 5), refusing (OpRead (Value 17)) 5 m_two).
Proof.
  apply (poll_queue_event_read_refused 3 EPOLLPRI [(4, EPOLLPRI)] 17 pin17 5
           (refusing (OpRead (Value 17)) 5 m_two));
    [ exact (consistent_fd_unique m_two m_two_consistent)
    | reflexivity | reflexivity | discriminate | reflexivity ].
Defined.

(** ** The registry and the poller stay in step *)

Lemma consistent_ext m m' :
  ctl m' = ctl m →
  registered (env m') = registered (env m) →
  next_fd (env m') = next_fd (env m) →
  consistent m → consistent m'.
Proof.
  intros Hc Hr Hn (Hkeys & Huniq & Hpoll & Hpins). unfold consistent.
  rewrite Hc. split_and!; [done|done| |].
  - intros fd. rewrite Hr, Hn. apply Hpoll.
  - intros n pin Hpin. rewrite Hr, Hn. exact (Hpins n pin Hpin).
Qed.

Lemma poller_set_pin number : keeps_poller (set_pin number).
Proof.
  unfold set_pin. apply poller_bind; [apply poller_get_ctl|].
  intros c. destruct (_ !! _); [apply poller_write_file | apply poller_raise].
Qed.

Lemma poller_reset_pin number : keeps_poller (reset_pin number).
Proof.
  unfold reset_pin. apply poller_bind; [apply poller_get_ctl|].
  intros c. destruct (_ !! _); [apply poller_write_file | apply poller_raise].
Qed.

Lemma keeps_set_pin number : keeps_ctl (set_pin number).
Proof.
  unfold set_pin. apply keeps_bind; [apply keeps_get_ctl|].
  intros c. destruct (_ !! _); [apply keeps_write_file | apply keeps_raise].
Qed.

Lemma keeps_reset_pin number : keeps_ctl (reset_pin number).
Proof.
  unfold reset_pin. apply keeps_bind; [apply keeps_get_ctl|].
  intros c. destruct (_ !! _); [apply keeps_write_file | apply keeps_raise].
Qed.

Lemma epoll_unregister_Ok_inv fd m u m' :
  epoll_unregister fd m = (Ok u, m') →
  fd ∈ registered (env m)
  ∧ ctl m' = ctl m
  ∧ next_fd (env m') = next_fd (env m)
  ∧ registered (env m') = registered (env m) ∖ {[fd]}.
Proof.
  unfold epoll_unregister, syscall.
  destruct (faults (env m) (OpUnregister fd)); [discriminate|].
  case_decide; [|discriminate]. by intros [= <- <-].
Qed.

(** A [get_pin_state] that returns has put the poller back as it was. *)
Lemma get_pin_state_returns number m b m' :
  get_pin_state number m = (Ok b, m') →
  ctl m' = ctl m
  ∧ registered (env m') = registered (env m)
  ∧ next_fd (env m') = next_fd (env m).
Proof.
  unfold get_pin_state. intros H. bind_inv H; [|discriminate].
  inversion Hrun; subst; clear Hrun.
  destruct (_allocated_pins (ctl m0) !! number) as [pin|]; [|discriminate].
  destruct (is_INPUT (_direction pin)); unfold when in H.
  - unfold _poll_queue_unregister_pin, _poll_queue_register_pin in H.
    bind_inv H; [|discriminate].
    apply epoll_unregister_Ok_inv in Hrun as (Hin & Hc1 & Hn1 & Hr1).
    bind_inv H; [|discriminate].
    pose proof (keeps_read_file _ _ _ _ Hrun) as Hc2.
    apply poller_read_file in Hrun as [Hr2 Hn2].
    bind_inv H; [|discriminate].
    pose proof (keeps_epoll_register _ _ _ _ _ Hrun) as Hc3.
    apply epoll_register_inv in Hrun as [Hn3 Hr3].
    match type of H with (if ?c then _ else _) ?mx = _ =>
      assert (m' = mx) as -> by (destruct c; by apply ret_inv in H as [_ ->])
    end.
    split_and!; [congruence| |congruence].
    rewrite Hr3, Hr2, Hr1. apply set_eq. intros x.
    rewrite elem_of_union, elem_of_difference, elem_of_singleton.
    destruct (decide (x = Pin_fileno pin)) as [->|]; tauto.
  - bind_inv H; [|discriminate]. apply ret_inv in Hrun as [_ ->].
    bind_inv H; [|discriminate].
    pose proof (keeps_read_file _ _ _ _ Hrun) as Hc2.
    apply poller_read_file in Hrun as [Hr2 Hn2].
    bind_inv H; [|discriminate]. apply ret_inv in Hrun as [_ ->].
    match type of H with (if ?c then _ else _) ?mx = _ =>
      assert (m' = mx) as -> by (destruct c; by apply ret_inv in H as [_ ->])
    end.
    done.
Qed.



(** ** The property setters *)

(** X20.  The [available_pins] setter replaces the list and touches
    nothing else; what it stores is what the getter returns and what
    [alloc_pin] checks from then on: with arguments otherwise valid and
    nothing refused, the allocation of an unallocated number succeeds when
    the number is in the new list and raises the out-of-range exception
    when it is not. *)
Theorem available_pins_setter_governs_alloc_pin
    (value : list Z) number direction callback edge active_low
    (m : Machine) :
  no_fault (env m) →
  poller_ok (env m) →
  _allocated_pins (ctl m) !! number = None →
  direction ∈ DIRECTIONS →
  (is_Some callback → edge ∈ Some <$> EDGES) →
  active_low ∈ ACTIVE_LOW_MODES →
  ∃ m1, set_available_pins value m = (Ok tt, m1)
    ∧ available_pins m1 = (Ok value, m1)
    ∧ _allocated_pins (ctl m1) = _allocated_pins (ctl m)
    ∧ _running (ctl m1) = _running (ctl m)
    ∧ env m1 = env m
    ∧ if bool_decide (number ∈ value)
      then ∃ m2, alloc_pin number direction callback edge active_low m1
                 = (Ok (Pin_built number direction callback active_low m), m2)
      else alloc_pin number direction callback edge active_low m1
           = (Raise OutOfRange, m1).
Proof.
  intros Hnf Hpoll Hnone Hdir Hedge Hmode.
  set (m1 := mkMachine (set_available value (ctl m)) (env m)).
  exists m1. split_and!; try reflexivity.
  case_bool_decide as Hin.
  - destruct (alloc_pin_run number direction callback edge active_low m1)
      as (m2 & Hrun & _); [by split_and! | exact Hnf | exact Hpoll |].
    by exists m2.
  - unfold alloc_pin. apply bind_Raise.
    unfold _check_pin_validity.
    rewrite (bind_Ok _ _ _ _ _ (get_ctl_run m1)).
    apply bind_Raise. simpl. by rewrite bool_decide_eq_false_2.
Qed.

(** X20 on the board: pin 22 becomes available, pin 17 no longer is. *)
Lemma available_pins_setter_governs_alloc_pin_witness :
  ∃ m1, set_available_pins [22] m_boot = (Ok tt, m1)
    ∧ available_pins m1 = (Ok [22], m1)
    ∧ (∃ m2, alloc_pin 22 OUTPUT None None 0 m1
             = (Ok (Pin_built 22 OUTPUT None 0 m_boot), m2))
    ∧ alloc_pin 17 OUTPUT None None 0 m1 = (Raise OutOfRange, m1).
Proof.
  destruct (available_pins_setter_governs_alloc_pin [22] 22 OUTPUT None None 0
              m_boot) as (m1 & Hset & Hget & _ & _ & _ & Halloc).
  { by intros op. }
  { exact (consistent_poller_ok m_boot m_boot_consistent). }
  { reflexivity. }
  { apply elem_of_cons. right. by left. }
  { by intros [? [=]]. }
  { apply elem_of_cons. right. by left. }
  destruct (available_pins_setter_governs_alloc_pin [22] 17 OUTPUT None None 0
              m_boot) as (m1' & Hset' & _ & _ & _ & _ & Halloc').
  { by intros op. }
  { exact (consistent_poller_ok m_boot m_boot_consistent). }
  { reflexivity. }
  { apply elem_of_cons. right. by left. }
  { by intros [? [=]]. }
  { apply elem_of_cons. right. by left. }
  assert (m1' = m1) as -> by congruence.
  exists m1. split_and!; [exact Hset | exact Hget | exact Halloc
                          | exact Halloc'].
Defined.

Lemma fd_unique_replace (pins : gmap Z Pin) number pin pin' :
  pins !! number = Some pin →
  Pin_fileno pin' = Pin_fileno pin →
  NoDup (Pin_fileno <$> values pins) →
  NoDup (Pin_fileno <$> values (<[number := pin']> pins)).
Proof.
  intros Hpin Hfd Hnd.
  rewrite <- (values_delete _ _ _ Hpin), fmap_cons in Hnd.
  rewrite <- insert_delete_eq.
  rewrite (values_insert (delete number pins) number pin')
    by apply lookup_delete_eq.
  by rewrite fmap_cons, Hfd.
Qed.

(** X21.  Assigning the [callback] property of the pin [get_pin] returns
    changes the pin the dictionary holds and nothing in the environment;
    the next event on the pin's descriptor reads the pin and calls the new
    callback once with the pin's number and the value read, or calls
    nothing when [None] was assigned. *)
Theorem assign_callback_takes_effect
    (number : Z) (pin : Pin) (value : option Callback) (mask : Z)
    (m : Machine) :
  fd_unique (ctl m) →
  _allocated_pins (ctl m) !! number = Some pin →
  Z.land mask (Z.lor EPOLLPRI EPOLLET) ≠ 0 →
  faults (env m) (OpRead (f_name (_fd pin))) = None →
  (∀ g, value = Some g →
        g (_number pin) (kernel_read (f_name (_fd pin)) (env m)) = None) →
  ∃ m1 m2,
    assign_callback number value m = (Ok tt, m1)
    ∧ env m1 = env m
    ∧ _allocated_pins (ctl m1)
      = <[number := with_callback value pin]> (_allocated_pins (ctl m))
    ∧ _poll_queue_event [(Pin_fileno pin, mask)] m1 = (Ok tt, m2)
    ∧ effects_of (_poll_queue_event [(Pin_fileno pin, mask)]) m1
      = EvRead (f_name (_fd pin))
        :: match value with
           | Some _ => [EvCallback (_number pin)
                          (kernel_read (f_name (_fd pin)) (env m))]
           | None => []
           end.
Proof.
  intros Huniq Hpin Hmask Hread Hquiet.
  set (pin' := with_callback value pin).
  set (m1 := mkMachine
               (set_allocated (<[number := pin']> (_allocated_pins (ctl m)))
                              (ctl m)) (env m)).
  assert (assign_callback number value m = (Ok tt, m1)) as Hset.
  { unfold assign_callback.
    rewrite (bind_Ok _ _ _ _ _ (get_pin_allocated _ _ _ Hpin)).
    by rewrite (bind_Ok _ _ _ _ _ (get_ctl_run m)). }
  set (w2 := match value with
             | Some _ =>
                 log (EvCallback (_number pin)
                        (kernel_read (f_name (_fd pin)) (env m)))
                     (log (EvRead (f_name (_fd pin))) (env m))
             | None => log (EvRead (f_name (_fd pin))) (env m)
             end).
  assert (_poll_queue_event [(Pin_fileno pin, mask)] m1
          = (Ok tt, mkMachine (ctl m1) w2)) as Hrun.
  { assert (dispatch_event (Pin_fileno pin, mask) m1
            = (Ok tt, mkMachine (ctl m1) w2)) as Hd.
    { unfold dispatch_event. rewrite (proj2 (Z.eqb_neq _ _) Hmask).
      rewrite (bind_Ok _ _ _ _ _ (get_ctl_run m1)).
      rewrite (scan_found (Pin_fileno pin) _ pin' m1).
      - unfold Pin_read. simpl _fd.
        rewrite (bind_Ok _ _ _ _ _ (read_file_ok _ m1 Hread)).
        unfold Pin_changed. simpl _callback.
        destruct value as [g|].
        + unfold call. simpl. rewrite (Hquiet g eq_refl). reflexivity.
        + reflexivity.
      - by apply (fd_unique_replace _ number pin pin').
      - apply elem_of_values. exists number. simpl. apply lookup_insert_eq.
      - reflexivity. }
    unfold _poll_queue_event. simpl for_each.
    rewrite (bind_Ok _ _ _ _ _ Hd). reflexivity. }
  exists m1. eexists. split_and!; [exact Hset|done|done|exact Hrun|].
  eapply effects_of_app; [exact Hrun|].
  unfold w2. destruct value; simpl; [by rewrite <- app_assoc | done].
Qed.

(** X21 on the board: the raising callback of pin 4 is replaced. *)
Lemma assign_callback_takes_effect_witness :
  ∃ m1 m2,
    assign_callback 4 (Some quiet) m_two = (Ok tt, m1)
    ∧ _poll_queue_event [(4, EPOLLPRI)] m1 = (Ok tt, m2)
    ∧ effects_of (_poll_queue_event [(4, EPOLLPRI)]) m1
      = [EvRead (Value 4); EvCallback 4 0].
Proof.
  destruct (assign_callback_takes_effect 4 pin4 (Some quiet) EPOLLPRI m_two)
    as (m1 & m2 & Hset & _ & _ & Hrun & Heff);
    [ exact (consistent_fd_unique m_two m_two_consistent)
    | reflexivity | discriminate | reflexivity | by intros g [= <-] | ].
  exists m1, m2. split_and!; [exact Hset | exact Hrun | exact Heff].
Defined.
